(** * Auto_YT_DL: the live-stream monitor and its recording supervisor

    A shallow embedding of [auto_yt_live.py] and [yt_live_watcher.py].
    The two scripts are the same program line for line, except that
    [yt_live_watcher.py] also has a run deadline ([end_time]) and an upload
    step ([upload_downloads_to_drive]); the embedding carries a [script]
    switch at exactly those places.

    The calls that leave the program (the clock, yt-dlp's [extract_info],
    [subprocess.Popen] and its methods, [subprocess.run]) are answered by an
    environment [Env]; every call the program makes is recorded in a trace of
    [event]s, so that ordering properties are statements about that trace. *)

From Stdlib Require Import ZArith String Ascii List DecimalString.
From stdpp Require Import base gmap strings list.

Open Scope string_scope.
Open Scope Z_scope.

(** ** Python values *)

(** The values that occur in yt-dlp's info dictionaries and in the result
    dictionaries of [get_video_info]. *)
Inductive PyVal :=
| PNone
| PBool (b : bool)
| PInt (n : Z)
| PStr (s : string).

#[global] Instance PyVal_eq_dec : EqDecision PyVal.
Proof. solve_decision. Defined.

Abbreviation dict := (gmap string PyVal).

(** [bool(v)] *)
Definition truthy (v : PyVal) : bool :=
  match v with
  | PNone => false
  | PBool b => b
  | PInt n => negb (n =? 0)
  | PStr s => negb (String.eqb s EmptyString)
  end.

(** [a or b] *)
Definition py_or (a b : PyVal) : PyVal := if truthy a then a else b.

(** [a == b]; a [bool] is an [int] in Python, so [True == 1]. *)
Definition py_eq (a b : PyVal) : bool :=
  match a, b with
  | PNone, PNone => true
  | PStr s, PStr t => String.eqb s t
  | PBool x, PBool y => Bool.eqb x y
  | PBool x, PInt n | PInt n, PBool x => (if x then 1 else 0) =? n
  | PInt n, PInt m => n =? m
  | _, _ => false
  end.

Definition string_of_Z (n : Z) : string := NilZero.string_of_int (Z.to_int n).

(** [str(v)], as an f-string interpolates it *)
Definition py_str (v : PyVal) : string :=
  match v with
  | PNone => "None"
  | PBool true => "True"
  | PBool false => "False"
  | PInt n => string_of_Z n
  | PStr s => s
  end.

(** [d.get(k)] and [d.get(k, dflt)] *)
Definition dict_get (d : dict) (k : string) : PyVal := default PNone (d !! k).
Definition dict_get_or (d : dict) (k : string) (dflt : PyVal) : PyVal :=
  default dflt (d !! k).

(** ** Strings *)

(** [needle in hay] *)
Fixpoint contains (needle hay : string) : bool :=
  String.prefix needle hay ||
  match hay with
  | EmptyString => false
  | String _ rest => contains needle rest
  end.

Definition code (c : ascii) : N := N_of_ascii c.

(** The characters [\s] matches in a [str] pattern, among the code points
    below 256 (a [string] here is a sequence of such code points). *)
Definition is_space (c : ascii) : bool :=
  let n := code c in
  ((9 <=? n) && (n <=? 13) || (28 <=? n) && (n <=? 32) ||
   (n =? 133) || (n =? 160))%N.

(** The class [[A-Za-z0-9_-]] *)
Definition is_id_char (c : ascii) : bool :=
  let n := code c in
  ((65 <=? n) && (n <=? 90) || (97 <=? n) && (n <=? 122) ||
   (48 <=? n) && (n <=? 57) || (n =? 95) || (n =? 45))%N.

Fixpoint string_forall (p : ascii -> bool) (s : string) : bool :=
  match s with
  | EmptyString => true
  | String c r => p c && string_forall p r
  end.

Fixpoint skip_spaces (s : string) : string :=
  match s with
  | String c r => if is_space c then skip_spaces r else s
  | EmptyString => EmptyString
  end.

(** [n] characters of the identifier class, or no match *)
Fixpoint take_id (n : nat) (s : string) : option string :=
  match n with
  | O => Some EmptyString
  | S n' =>
      match s with
      | String c r => if is_id_char c then String c <$> take_id n' r else None
      | EmptyString => None
      end
  end.

Fixpoint drop_prefix (p s : string) : option string :=
  match p, s with
  | EmptyString, _ => Some s
  | String a p', String b s' => if Ascii.eqb a b then drop_prefix p' s' else None
  | String _ _, EmptyString => None
  end.

(** The pattern [\[youtube\]\s*([A-Za-z0-9_-]{11})] tried at the start of
    [s]; the result is group 1. The greedy [\s*] never has to give
    characters back: a space is not in the identifier class. *)
Definition match_youtube_id (s : string) : option string :=
  match drop_prefix "[youtube]" s with
  | Some r => take_id 11 (skip_spaces r)
  | None => None
  end.

(** [re.search(r"\[youtube\]\s*([A-Za-z0-9_-]{11})", s)], then [m.group(1)]:
    the leftmost position where the pattern matches *)
Fixpoint re_search_youtube_id (s : string) : option string :=
  match match_youtube_id s with
  | Some g => Some g
  | None =>
      match s with
      | EmptyString => None
      | String _ r => re_search_youtube_id r
      end
  end.

Definition lstrip (s : string) : string := skip_spaces s.

Fixpoint rstrip (s : string) : string :=
  match s with
  | EmptyString => EmptyString
  | String c r =>
      match rstrip r with
      | EmptyString => if is_space c then EmptyString else String c EmptyString
      | r' => String c r'
      end
  end.

(** [s.strip()] *)
Definition strip (s : string) : string := rstrip (lstrip s).

(** [' '.join(l)] *)
Fixpoint join_spaces (l : list string) : string :=
  match l with
  | [] => EmptyString
  | [x] => x
  | x :: r => x +:+ " " +:+ join_spaces r
  end.

(** ** Floats *)

(** A finite [float], written [(m, e)] for [m * 2 ^ e]. *)
Definition pyfloat : Type := Z * Z.

(** [a / b] rounded to the nearest integer, a tie going to the even one
    ([0 < b]). *)
Definition round_half_even (a b : Z) : Z :=
  let q := a / b in
  let r := a mod b in
  if (b <? 2 * r) || ((2 * r =? b) && Z.odd q) then q + 1 else q.

(** [a < b * 2 ^ k], for an exponent of either sign *)
Definition scaled_lt (a b k : Z) : bool :=
  if 0 <=? k then a <? b * 2 ^ k else a * 2 ^ (- k) <? b.

(** [a / b] for two positive [int]s: the [float] nearest to the quotient,
    with 53 bits and ties to even. [k] is the exponent of the quotient,
    [2 ^ k <= a / b < 2 ^ (k + 1)]. *)
Definition true_divide_pos (a b : Z) : pyfloat :=
  let k := Z.log2 a - Z.log2 b in
  let k := if scaled_lt a b k then k - 1 else k in
  let e := k - 52 in
  (if 0 <=? e then round_half_even a (b * 2 ^ e)
   else round_half_even (a * 2 ^ (- e)) b, e).

(** [a / b] for an [int] [a] and a positive [int] [b]. (The quotients met
    here are microseconds over [10**6], far from the ends of the range of a
    [float].) *)
Definition true_divide (a b : Z) : pyfloat :=
  match a with
  | 0 => (0, 0)
  | Zpos _ => true_divide_pos a b
  | Zneg _ => let '(m, e) := true_divide_pos (- a) b in (- m, e)
  end.

(** [x > n] for a [float] and an [int], which Python compares exactly. *)
Definition float_gt_int (x : pyfloat) (n : Z) : bool :=
  let '(m, e) := x in
  if 0 <=? e then n <? m * 2 ^ e else n * 2 ^ (- e) <? m.

(** [timedelta.total_seconds()], for a difference given in microseconds *)
Definition total_seconds (microseconds : Z) : pyfloat :=
  true_divide microseconds 1000000.

(** ** Exceptions *)

(** The instances of [Exception] the program meets; [exc_str] is [str(e)].
    [TimeoutExpired] is [subprocess.TimeoutExpired], which carries what
    [subprocess.run] had captured when it gave up ([None] for [Popen.wait]). *)
Inductive exception :=
| DownloadError (msg : string)
| TimeoutExpired (msg : string) (stdout stderr : PyVal)
| OtherError (msg : string).

Definition exc_str (e : exception) : string :=
  match e with
  | DownloadError msg | TimeoutExpired msg _ _ | OtherError msg => msg
  end.

(** What a [raise] carries: an [Exception], or the [SystemExit] of
    [sys.exit], which [except Exception] does not catch. *)
Inductive raised :=
| Exc (e : exception)
| SystemExit (code : Z).

(** ** The log *)

(** One constructor per [print] statement of the two scripts, with the values
    it interpolates; [render] gives the text after the [[timestamp]] prefix.
    The time stamps of the log lines are left out: the [datetime.now()] of an
    f-string decides nothing, and takes no answer from the clock below. *)
Inductive line :=
(* get_video_info *)
| LPerformingScan (deep_scan : bool) (video_url : string)
| LStatusLive (label : PyVal)
| LStatusUpcoming (label : PyVal)
| LQuickScanFound (video_id : PyVal)
| LStatusNotLive (label : PyVal)
(* start_record *)
| LStartingDownload (cmd : list string)
| LErrorStarting (msg : string)
(* upload_downloads_to_drive *)
| LAttemptingUpload (out_dir : string)
| LRunningUpload (cmd : list string)
| LUploadComplete
| LRcloneLog (stderr : string)
| LUploadError (returncode : Z)
| LRcloneStderr (stderr : string)
| LRcloneStdout (stdout : string)
| LUploadTimedOut
| LUploadUnexpected (msg : string)
(* stop_current_recording *)
| LTerminating (vid : PyVal)
| LDidNotTerminate (vid : PyVal)
| LErrorStopping (msg : string)
| LRecordingStopped (vid : PyVal)
(* handle_sigint *)
| LReceivedSigint
(* watch_loop *)
| LMonitoring (url : string)
| LReachedMaxRun
| LRecorderExited (vid : PyVal) (returncode : Z)
| LHeartbeat (vid : PyVal)
| LNoVideoFound
| LLiveDetected (title vid : PyVal)
| LRecordingStarted
| LMaxRunDuringRecording
| LProgress (output : string)
| LNewline
| LFailedToStart (vid : PyVal)
| LUpcoming (title : PyVal)
| LNoLiveStream (title : PyVal)
| LErrorChecking (title errmsg : PyVal)
| LUnknownStatus (status : PyVal)
| LUnexpectedError (msg : string).

#[global] Instance line_eq_dec : EqDecision line.
Proof. solve_decision. Defined.

Definition render (l : line) : string :=
  match l with
  | LPerformingScan deep url =>
      "Performing " +:+ (if deep then "DEEP" else "QUICK") +:+ " scan for: " +:+ url
  | LStatusLive x => "Status for '" +:+ py_str x +:+ "': LIVE"
  | LStatusUpcoming x => "Status for '" +:+ py_str x +:+ "': UPCOMING"
  | LQuickScanFound v =>
      "Quick scan found video ID '" +:+ py_str v +:+ "'. Needs deep scan."
  | LStatusNotLive x => "Status for '" +:+ py_str x +:+ "': NOT LIVE"
  | LStartingDownload cmd => "Starting download command: " +:+ join_spaces cmd
  | LErrorStarting msg => "Error starting download: " +:+ msg
  | LAttemptingUpload d => "Attempting to upload files from " +:+ d +:+ " to GDrive..."
  | LRunningUpload cmd => "Running upload: " +:+ join_spaces cmd
  | LUploadComplete => "Upload complete."
  | LRcloneLog err => "rclone log:" +:+ String "010" err
  | LUploadError rc =>
      "ERROR during upload. rclone exited with " +:+ string_of_Z rc +:+ "."
  | LRcloneStderr err => "rclone stderr: " +:+ err
  | LRcloneStdout out => "rclone stdout: " +:+ out
  | LUploadTimedOut => "ERROR: rclone upload timed out after 30 minutes."
  | LUploadUnexpected msg => "UNEXPECTED ERROR during upload: " +:+ msg
  | LTerminating v => "Terminating recording for " +:+ py_str v +:+ "..."
  | LDidNotTerminate v =>
      "Process for " +:+ py_str v +:+ " did not terminate gracefully, killing..."
  | LErrorStopping msg => "Error while stopping process: " +:+ msg
  | LRecordingStopped v => "Recording for " +:+ py_str v +:+ " stopped."
  | LReceivedSigint => "Received SIGINT. Exiting gracefully..."
  | LMonitoring url => "Monitoring YouTube channel: " +:+ url
  | LReachedMaxRun => "Reached MAX_RUN_SECONDS limit. Exiting loop."
  | LRecorderExited v rc =>
      "Recorder for " +:+ py_str v +:+ " exited with code " +:+ string_of_Z rc +:+ "."
  | LHeartbeat v =>
      "Heartbeat: Recording for video " +:+ py_str v +:+ " is still in progress..."
  | LNoVideoFound => "No video found on channel page. Waiting..."
  | LLiveDetected t v =>
      "*** LIVE stream detected: '" +:+ py_str t +:+ "' (" +:+ py_str v +:+ ") ***"
  | LRecordingStarted => "Recording process started successfully."
  | LMaxRunDuringRecording => "MAX_RUN_SECONDS reached during recording. Stopping."
  | LProgress out => out
  | LNewline => EmptyString
  | LFailedToStart v =>
      "ERROR: Failed to start recording process for " +:+ py_str v +:+ "."
  | LUpcoming t => "UPCOMING stream scheduled: '" +:+ py_str t +:+ "'. Waiting..."
  | LNoLiveStream t => "No live stream. Last checked: '" +:+ py_str t +:+ "'. Waiting..."
  | LErrorChecking t m => "ERROR checking '" +:+ py_str t +:+ "': " +:+ py_str m
  | LUnknownStatus s => "Unknown status: " +:+ py_str s +:+ ". Waiting..."
  | LUnexpectedError msg => "An unexpected error occurred in watch_loop: " +:+ msg
  end.

(** ** Calls into the outside world *)

(** Every call the program makes, in program order. A [Popen] object is
    named by its position in the table of children ([procs] below). *)
Inductive event :=
| Print (l : line)
| ExtractInfo (video_url : string) (extract_flat : bool)
| Popen (cmd : list string)
| Terminate (p : nat)
| Wait (p : nat) (timeout : Z)
| Kill (p : nat)
| Readline (p : nat)
| Run (cmd : list string) (timeout : Z)
| Sleep (milliseconds : Z).

#[global] Instance event_eq_dec : EqDecision event.
Proof. solve_decision. Defined.

(** How one [with yt_dlp.YoutubeDL(ydl_opts) as ydl: ... ydl.extract_info(...)]
    goes: [extract_info] returns a dictionary or [None], or it raises, or
    the constructor has raised before it, in which case nothing is logged
    and nothing is asked of YouTube. ([__exit__] closes the object and is
    taken to return: with these options it saves no cookies and restores no
    console title.) *)
Inductive extraction :=
| Extracted (info : option dict)
| ExtractionFails (e : exception)
| ConstructorFails (e : exception).

(** What [Popen.wait(timeout)] does for a child not yet reaped. *)
Inductive wait_answer :=
| WaitExited (returncode : Z)
| WaitTimesOut
| WaitFails (e : exception).

(** What [subprocess.run(..., capture_output=True, timeout=...)] does. *)
Inductive run_answer :=
| Completed (returncode : Z) (stdout stderr : string)
| RunTimesOut (stdout stderr : string)
| RunFails (e : exception).

(** The environment: the answer to the [n]-th call the program makes, for
    each kind of call. Only the stream of the kind that is called is read at
    [n], so any interleaving of answers can be written down. *)
Record Env := {
  clock : nat -> Z;                   (* datetime.now(), in microseconds *)
  extract_info : nat -> extraction;
  spawn : nat -> option exception;    (* Popen(...): None when it succeeds *)
  child_exit : nat -> option Z;       (* waitpid(WNOHANG): the exit code, once the child is gone *)
  send_signal : nat -> option exception; (* os.kill: None when it succeeds *)
  wait_child : nat -> wait_answer;
  readline : nat -> string + exception;
  run_rclone : nat -> run_answer
}.

(** The settings read when the module is loaded. [end_time] is [None] when
    [MAX_RUN_SECONDS] is 0; [auto_yt_live.py] has no deadline and no upload. *)
Inductive script := AutoYtLive | YtLiveWatcher.

Record Config := {
  which : script;
  executable : string;                (* sys.executable *)
  CHANNEL_URL : string;
  CHECK_INTERVAL : Z;
  QUIET_LOG_INTERVAL : Z;
  HEARTBEAT_INTERVAL : Z;
  OUT_DIR : string;
  OUT_TEMPLATE : string;
  RCLONE_REMOTE_NAME : string;
  GDRIVE_FOLDER : string;
  end_time : option Z                 (* in microseconds, like the clock *)
}.

(** ** The state of a run *)

(** The four [nonlocal] variables of [watch_loop], the [returncode] of every
    [Popen] object made so far ([None] until the exit has been seen), the
    number of answers taken from the environment, and the trace. *)
Record World := {
  current_proc : option nat;
  current_vid_id : PyVal;
  last_logged_state : string;
  last_logged_time : Z;
  procs : list (option Z);
  asked : nat;
  trace : list event
}.

Definition set_current_proc (p : option nat) (w : World) : World :=
  {| current_proc := p; current_vid_id := current_vid_id w;
     last_logged_state := last_logged_state w;
     last_logged_time := last_logged_time w;
     procs := procs w; asked := asked w; trace := trace w |}.

Definition set_current_vid_id (v : PyVal) (w : World) : World :=
  {| current_proc := current_proc w; current_vid_id := v;
     last_logged_state := last_logged_state w;
     last_logged_time := last_logged_time w;
     procs := procs w; asked := asked w; trace := trace w |}.

Definition set_last_logged_state (s : string) (w : World) : World :=
  {| current_proc := current_proc w; current_vid_id := current_vid_id w;
     last_logged_state := s;
     last_logged_time := last_logged_time w;
     procs := procs w; asked := asked w; trace := trace w |}.

Definition set_last_logged_time (t : Z) (w : World) : World :=
  {| current_proc := current_proc w; current_vid_id := current_vid_id w;
     last_logged_state := last_logged_state w;
     last_logged_time := t;
     procs := procs w; asked := asked w; trace := trace w |}.

Definition set_procs (ps : list (option Z)) (w : World) : World :=
  {| current_proc := current_proc w; current_vid_id := current_vid_id w;
     last_logged_state := last_logged_state w;
     last_logged_time := last_logged_time w;
     procs := ps; asked := asked w; trace := trace w |}.

Definition next_answer (w : World) : World :=
  {| current_proc := current_proc w; current_vid_id := current_vid_id w;
     last_logged_state := last_logged_state w;
     last_logged_time := last_logged_time w;
     procs := procs w; asked := S (asked w); trace := trace w |}.

Definition record (e : event) (w : World) : World :=
  {| current_proc := current_proc w; current_vid_id := current_vid_id w;
     last_logged_state := last_logged_state w;
     last_logged_time := last_logged_time w;
     procs := procs w; asked := asked w; trace := (trace w ++ [e])%list |}.

(** [watch_loop]'s locals as it enters the loop;
    [datetime.fromtimestamp(0)] is the epoch. *)
Definition initial : World :=
  {| current_proc := None; current_vid_id := PNone;
     last_logged_state := "initial"; last_logged_time := 0;
     procs := []; asked := 0; trace := [] |}.

(** ** The monad: state, exceptions, and running out of fuel *)

Inductive result (A : Type) :=
| Ret (a : A)
| Raise (e : raised)
| Diverge.
Arguments Ret {A} a.
Arguments Raise {A} e.
Arguments Diverge {A}.

Definition M (A : Type) : Type := World -> result A * World.

Definition ret {A} (a : A) : M A := fun w => (Ret a, w).

Definition bind {A B} (m : M A) (f : A -> M B) : M B := fun w =>
  match m w with
  | (Ret a, w') => f a w'
  | (Raise e, w') => (Raise e, w')
  | (Diverge, w') => (Diverge, w')
  end.

Declare Scope prog_scope.
Delimit Scope prog_scope with prog.
Notation "x ← y ; z" := (bind y (fun x => z))
  (at level 20, y at level 100, z at level 200, only parsing) : prog_scope.
Notation "x ;; z" := (bind x (fun _ => z))
  (at level 100, z at level 200, only parsing, right associativity) : prog_scope.
Open Scope prog_scope.

Definition raise {A} (e : raised) : M A := fun w => (Raise e, w).
Definition diverge {A} : M A := fun w => (Diverge, w).
Definition get : M World := fun w => (Ret w, w).
Definition modify (f : World -> World) : M unit := fun w => (Ret tt, f w).
Definition emit (e : event) : M unit := modify (record e).
Definition print (l : line) : M unit := emit (Print l).

(** [try: body  except ...: handler]. [handler e] is [None] when no
    [except] clause matches [e]. *)
Definition try_except {A} (body : M A) (handler : raised -> option (M A)) : M A :=
  fun w =>
    match body w with
    | (Raise e, w') =>
        match handler e with
        | Some h => h w'
        | None => (Raise e, w')
        end
    | r => r
    end.

(** [try: body  finally: final]. The [finally] block runs on every way out
    of [body], and what it raises replaces what [body] raised. *)
Definition try_finally {A} (body : M A) (final : M unit) : M A :=
  fun w =>
    match body w with
    | (Diverge, w') => (Diverge, w')
    | (r, w') =>
        match final w' with
        | (Ret _, w'') => (r, w'')
        | (Raise e, w'') => (Raise e, w'')
        | (Diverge, w'') => (Diverge, w'')
        end
    end.

(** [except Exception as e] *)
Definition except_Exception {A} (h : exception -> M A) (e : raised) : option (M A) :=
  match e with
  | Exc e => Some (h e)
  | SystemExit _ => None
  end.

Inductive flow := Next | Break.

Section Program.

Context (cfg : Config) (env : Env).

(** *** The calls *)

(** Take the environment's answer to this call. *)
Definition ask {A} (stream : Env -> nat -> A) : M A :=
  fun w => (Ret (stream env (asked w)), next_answer w).

Definition datetime_now : M Z := ask clock.

(** [time.sleep(secs)], the length given here in milliseconds. The length
    is first converted to nanoseconds in a signed 64-bit integer, which
    fails with an [OverflowError] from 9223372037 seconds on, whatever the
    sign; a negative length that converts is a [ValueError]. *)
Definition sleep_refusal (milliseconds : Z) : option exception :=
  if 9223372037000 <=? Z.abs milliseconds
  then Some (OtherError "timestamp too large to convert to C _PyTime_t")
  else if milliseconds <? 0
  then Some (OtherError "sleep length must be non-negative")
  else None.

Definition sleep (milliseconds : Z) : M unit :=
  match sleep_refusal milliseconds with
  | Some e => raise (Exc e)
  | None => emit (Sleep milliseconds)
  end.

(** [yt_dlp.YoutubeDL(ydl_opts)]. The object made stands for the answer
    that its one call of [extract_info] is going to get. *)
Definition YoutubeDL : M extraction :=
  a ← ask extract_info;
  match a with
  | ConstructorFails e => raise (Exc e)
  | Extracted _ | ExtractionFails _ => ret a
  end.

(** [ydl.extract_info(video_url, download=False)] *)
Definition ydl_extract_info (ydl : extraction) (video_url : string)
    (extract_flat : bool) : M (option dict) :=
  emit (ExtractInfo video_url extract_flat);;
  match ydl with
  | Extracted info => ret info
  | ExtractionFails e | ConstructorFails e => raise (Exc e)
  end.

(** [subprocess.Popen(cmd, ...)]: the new object is the next entry of the
    table, with no [returncode] yet. *)
Definition subprocess_Popen (cmd : list string) : M nat :=
  emit (Popen cmd);;
  a ← ask spawn;
  match a with
  | Some e => raise (Exc e)
  | None =>
      w ← get;
      modify (fun w => set_procs (procs w ++ [None])%list w);;
      ret (length (procs w))
  end.

Definition returncode (p : nat) : M (option Z) :=
  w ← get; ret (mjoin (procs w !! p)).

Definition set_returncode (p : nat) (c : Z) : M unit :=
  modify (fun w => set_procs (<[p := Some c]> (procs w)) w).

(** [Popen.poll()]: a [returncode] once seen stays. *)
Definition poll (p : nat) : M (option Z) :=
  rc ← returncode p;
  match rc with
  | Some c => ret (Some c)
  | None =>
      a ← ask child_exit;
      match a with
      | Some c => set_returncode p c;; ret (Some c)
      | None => ret None
      end
  end.

(** [Popen.send_signal]: it polls first and does nothing for a child that
    is gone. *)
Definition Popen_send_signal (p : nat) : M unit :=
  rc ← poll p;
  match rc with
  | Some _ => ret tt
  | None =>
      a ← ask send_signal;
      match a with
      | Some e => raise (Exc e)
      | None => ret tt
      end
  end.

Definition terminate (p : nat) : M unit := emit (Terminate p);; Popen_send_signal p.
Definition kill (p : nat) : M unit := emit (Kill p);; Popen_send_signal p.

(** [Popen.wait(timeout)]: it returns only with the [returncode] set, and
    raises [TimeoutExpired] when the child outlives the timeout. (The
    message of the real exception also quotes the command line.) *)
Definition wait (p : nat) (timeout : Z) : M Z :=
  emit (Wait p timeout);;
  rc ← returncode p;
  match rc with
  | Some c => ret c
  | None =>
      a ← ask wait_child;
      match a with
      | WaitExited c => set_returncode p c;; ret c
      | WaitTimesOut =>
          raise (Exc (TimeoutExpired
                        ("Command timed out after " +:+ string_of_Z timeout +:+ " seconds")
                        PNone PNone))
      | WaitFails e => raise (Exc e)
      end
  end.

Definition stdout_readline (p : nat) : M string :=
  emit (Readline p);;
  a ← ask readline;
  match a with
  | inl s => ret s
  | inr e => raise (Exc e)
  end.

(** [subprocess.run(cmd, capture_output=True, text=True, timeout=...)] *)
Definition subprocess_run (cmd : list string) (timeout : Z) : M (Z * string * string) :=
  emit (Run cmd timeout);;
  a ← ask run_rclone;
  match a with
  | Completed rc out err => ret (rc, out, err)
  | RunTimesOut out err =>
      raise (Exc (TimeoutExpired
                    ("Command timed out after " +:+ string_of_Z timeout +:+ " seconds")
                    (PStr out) (PStr err)))
  | RunFails e => raise (Exc e)
  end.

(** *** [get_video_info] *)

(** [not info]: [None] and the empty dictionary are both false. *)
Definition info_present (info : option dict) : option dict :=
  match info with
  | Some d => if bool_decide (d = ∅) then None else Some d
  | None => None
  end.

Definition get_video_info (video_url : string) (deep_scan : bool) : M dict :=
  try_except
    (ydl ← YoutubeDL;
     print (LPerformingScan deep_scan video_url);;
     info ← ydl_extract_info ydl video_url (negb deep_scan);
     match info_present info with
     | None => ret {[ "status" := PStr "not_live" ]}
     | Some info =>
         let video_id := dict_get info "id" in
         let title := dict_get info "title" in
         if truthy (dict_get info "is_live") then
           print (LStatusLive (py_or title video_id));;
           ret {[ "status" := PStr "live"; "video_id" := video_id; "title" := title ]}
         else if truthy (dict_get info "is_upcoming")
                 || py_eq (dict_get info "live_status") (PStr "is_upcoming") then
           print (LStatusUpcoming (py_or title video_id));;
           ret {[ "status" := PStr "upcoming"; "video_id" := video_id; "title" := title ]}
         else if negb deep_scan && truthy video_id then
           print (LQuickScanFound video_id);;
           ret {[ "status" := PStr "inconclusive"; "video_id" := video_id; "title" := title ]}
         else
           print (LStatusNotLive (py_or title video_id));;
           ret {[ "status" := PStr "not_live"; "video_id" := video_id; "title" := title ]}
     end)
    (fun e =>
       match e with
       | Exc (DownloadError msg) =>
           Some (if contains "live event will begin" msg then
                   let vid := match re_search_youtube_id msg with
                              | Some g => PStr g
                              | None => PNone
                              end in
                   ret {[ "status" := PStr "upcoming"; "video_id" := vid;
                           "errmsg" := PStr msg ]}
                 else
                   ret {[ "status" := PStr "error"; "errmsg" := PStr msg ]})
       | Exc e => Some (ret {[ "status" := PStr "error"; "errmsg" := PStr (exc_str e) ]})
       | SystemExit _ => None
       end).

(** *** [start_record] *)

Definition YTDLP_CMD : list string := [executable cfg; "-m"; "yt_dlp"].

Definition start_record (video_url : string) : M (option nat) :=
  try_except
    (let cmd := (YTDLP_CMD ++
                 ["--no-warnings"; "--newline"; "--no-overwrites"; "--live-from-start";
                  "--hls-use-mpegts"; "--progress"; "-o"; OUT_TEMPLATE cfg; video_url])%list in
     print (LStartingDownload cmd);;
     p ← subprocess_Popen cmd;
     ret (Some p))
    (except_Exception (fun e => print (LErrorStarting (exc_str e));; ret None)).

(** *** [upload_downloads_to_drive] ([yt_live_watcher.py] only) *)

Definition upload_cmd : list string :=
  ["rclone"; "copy"; OUT_DIR cfg;
   RCLONE_REMOTE_NAME cfg +:+ ":" +:+ String "034" (GDRIVE_FOLDER cfg +:+ String "034" EmptyString);
   "--create-empty-src-dirs"; "--progress"; "--drive-chunk-size"; "64M"].

Definition upload_downloads_to_drive : M unit :=
  print (LAttemptingUpload (OUT_DIR cfg));;
  try_except
    (print (LRunningUpload upload_cmd);;
     up_result ← subprocess_run upload_cmd 1800;
     let '(rc, out, err) := up_result in
     if rc =? 0 then
       print LUploadComplete;;
       if negb (String.eqb err EmptyString) then print (LRcloneLog err) else ret tt
     else
       print (LUploadError rc);;
       print (LRcloneStderr err);;
       print (LRcloneStdout out))
    (fun e =>
       match e with
       | Exc (TimeoutExpired _ _ _) => Some (print LUploadTimedOut)
       | Exc e => Some (print (LUploadUnexpected (exc_str e)))
       | SystemExit _ => None
       end).

(** *** [watch_loop] and its closures *)

Definition stop_current_recording : M unit :=
  w ← get;
  match current_proc w with
  | Some p =>
      print (LTerminating (current_vid_id w));;
      try_finally
        (try_except
           (terminate p;;
            wait p 5;;
            rc ← poll p;
            match rc with
            | None =>
                print (LDidNotTerminate (current_vid_id w));;
                kill p
            | Some _ => ret tt
            end)
           (except_Exception (fun e => print (LErrorStopping (exc_str e)))))
        (print (LRecordingStopped (current_vid_id w));;
         modify (set_current_proc None);;
         modify (set_current_vid_id PNone))
  | None => ret tt
  end.

(** The handler installed for [SIGINT]. The interpreter may run it between
    any two steps of the loop; only its body is given here. *)
Definition handle_sigint : M unit :=
  print LReceivedSigint;;
  stop_current_recording;;
  match which cfg with
  | YtLiveWatcher => upload_downloads_to_drive
  | AutoYtLive => ret tt
  end;;
  raise (SystemExit 0).

(** [(now - last).total_seconds() > seconds], the two times in
    microseconds and [seconds] an [int]. *)
Definition elapsed_exceeds (now last seconds : Z) : bool :=
  float_gt_int (total_seconds (now - last)) seconds.

(** [end_time and datetime.now() >= end_time]; the clock is not read when
    there is no deadline, and [auto_yt_live.py] has no such test. *)
Definition deadline_reached : M bool :=
  match which cfg, end_time cfg with
  | YtLiveWatcher, Some e => now ← datetime_now; ret (e <=? now)
  | _, _ => ret false
  end.

(** [last_logged_state != key or
     (datetime.now() - last_logged_time).total_seconds() > QUIET_LOG_INTERVAL],
    the test written out at both places that log a waiting status; [or]
    does not read the clock when the key differs. *)
Definition should_log (key : string) : M bool :=
  w ← get;
  if negb (String.eqb (last_logged_state w) key) then ret true
  else now ← datetime_now;
       ret (elapsed_exceeds now (last_logged_time w) (QUIET_LOG_INTERVAL cfg)).

(** The two assignments that follow a logged status line. *)
Definition mark_logged (key : string) : M unit :=
  modify (set_last_logged_state key);;
  now ← datetime_now;
  modify (set_last_logged_time now).

(** The throttled status line, as both places have it:
    [if <should_log>: print(...); last_logged_state = key;
     last_logged_time = datetime.now()]. *)
Definition log_throttled (key : string) (l : line) : M unit :=
  log ← should_log key;
  if log then print l;; mark_logged key else ret tt.

(** The inner [while current_proc.poll() is None] loop; [fuel] bounds the
    number of iterations that are followed. *)
Fixpoint relay_progress (fuel : nat) (p : nat) : M unit :=
  match fuel with
  | O => diverge
  | S fuel' =>
      rc ← poll p;
      match rc with
      | Some _ => ret tt
      | None =>
          late ← deadline_reached;
          if late then print LMaxRunDuringRecording
          else
            output ← stdout_readline p;
            (if negb (String.eqb output EmptyString) then
               let output := strip output in
               if contains "[download]" output && negb (contains "Destination:" output)
               then print (LProgress output)
               else ret tt
             else ret tt);;
            sleep 100;;
            relay_progress fuel' p
      end
  end.

(** [msg_map.get(status, f'Unknown status: ...')] *)
Definition msg_map (status title errmsg : PyVal) : line :=
  if py_eq status (PStr "upcoming") then LUpcoming title
  else if py_eq status (PStr "not_live") then LNoLiveStream title
  else if py_eq status (PStr "error") then LErrorChecking title errmsg
  else LUnknownStatus status.

(** The [if current_proc:] block at the head of the [try]. It answers
    [true] when the iteration ends there ([continue]). *)
Definition check_recording : M bool :=
  w ← get;
  match current_proc w with
  | Some p =>
      rc ← poll p;
      match rc with
      | Some c =>
          print (LRecorderExited (current_vid_id w) c);;
          match which cfg with
          | YtLiveWatcher => upload_downloads_to_drive
          | AutoYtLive => ret tt
          end;;
          stop_current_recording;;
          modify (set_last_logged_state "stopped");;
          ret false
      | None =>
          now ← datetime_now;
          (if elapsed_exceeds now (last_logged_time w) (HEARTBEAT_INTERVAL cfg) then
             print (LHeartbeat (current_vid_id w));;
             now ← datetime_now;
             modify (set_last_logged_time now)
           else ret tt);;
          sleep (CHECK_INTERVAL cfg * 1000);;
          ret true
      end
  | None => ret false
  end.

(** The body of [if candidate_vid_id != current_vid_id:], from the
    [LIVE stream detected] line to the end of its [if current_proc: ... else:]. *)
Definition start_new_recording (fuel : nat) (video_url : string)
    (title candidate_vid_id : PyVal) : M unit :=
  print (LLiveDetected title candidate_vid_id);;
  stop_current_recording;;
  started ← start_record video_url;
  modify (set_current_proc started);;
  match started with
  | Some p =>
      print LRecordingStarted;;
      modify (set_current_vid_id candidate_vid_id);;
      mark_logged "recording";;
      relay_progress fuel p;;
      print LNewline
  | None =>
      print (LFailedToStart candidate_vid_id);;
      modify (set_last_logged_state "error")
  end.

(** The rest of the [try] block: quick scan, deep scan, and the decision. *)
Definition scan_for_stream (fuel : nat) : M unit :=
  channel_info ← get_video_info (CHANNEL_URL cfg) false;
  let candidate_vid_id := dict_get channel_info "video_id" in
  if negb (truthy candidate_vid_id) then
    log_throttled "no_video" LNoVideoFound;;
    sleep (CHECK_INTERVAL cfg * 1000)
  else
    let video_url := "https://www.youtube.com/watch?v=" +:+ py_str candidate_vid_id in
    final_status_info ← get_video_info video_url true;
    let status := dict_get final_status_info "status" in
    let title := dict_get_or final_status_info "title"
                   (PStr ("Video " +:+ py_str candidate_vid_id)) in
    (if py_eq status (PStr "live") then
       w ← get;
       if negb (py_eq candidate_vid_id (current_vid_id w)) then
         start_new_recording fuel video_url title candidate_vid_id
       else ret tt
     else
       let log_key := "waiting_" +:+ py_str candidate_vid_id in
       log_throttled log_key
         (msg_map status title (dict_get final_status_info "errmsg")));;
    sleep (CHECK_INTERVAL cfg * 1000).

(** One pass through the body of [while True]. *)
Definition watch_iteration (fuel : nat) : M flow :=
  late ← deadline_reached;
  if late then
    print LReachedMaxRun;;
    w ← get;
    match current_proc w with
    | Some _ => stop_current_recording
    | None => ret tt
    end;;
    upload_downloads_to_drive;;
    ret Break
  else
    try_except
      (done ← check_recording;
       if done then ret Next
       else scan_for_stream fuel;; ret Next)
      (except_Exception
         (fun e =>
            print (LUnexpectedError (exc_str e));;
            sleep (CHECK_INTERVAL cfg * 2 * 1000);;
            ret Next)).

(** [watch_loop], followed for at most [ticks] iterations. *)
Fixpoint iterate (ticks fuel : nat) : M unit :=
  match ticks with
  | O => diverge
  | S ticks' =>
      f ← watch_iteration fuel;
      match f with
      | Break => ret tt
      | Next => iterate ticks' fuel
      end
  end.

Definition watch_loop (ticks fuel : nat) : M unit :=
  print (LMonitoring (CHANNEL_URL cfg));;
  iterate ticks fuel.

End Program.

(** * Statements

    The predicates and the scenarios the theorems below are stated with. *)

(** What the pattern means, read off the regular expression: the tag, any
    run of white space, then exactly eleven identifier characters. *)
Definition tagged_id (s tok : string) : Prop :=
  exists ws post,
    s = "[youtube]" +:+ ws +:+ tok +:+ post /\
    string_forall is_space ws = true /\
    String.length tok = 11%nat /\
    string_forall is_id_char tok = true.

Definition statuses : list string :=
  ["live"; "upcoming"; "not_live"; "inconclusive"; "error"].

(** The two signals [get_video_info] looks for in an info dictionary. *)
Definition live_signal (info : dict) : bool := truthy (dict_get info "is_live").
Definition upcoming_signal (info : dict) : bool :=
  truthy (dict_get info "is_upcoming")
  || py_eq (dict_get info "live_status") (PStr "is_upcoming").

(** What the message of a [DownloadError] that announces a later start
    gives as [video_id]: the token at the leftmost place of the message
    where the pattern matches, or [None] when it matches nowhere. *)
Definition id_of_message (msg : string) (vid : PyVal) : Prop :=
  (exists pre rest tok,
      vid = PStr tok /\ msg = pre +:+ rest /\ tagged_id rest tok /\
      forall pre' rest' tok',
        msg = pre' +:+ rest' -> (String.length pre' < String.length pre)%nat ->
        ~ tagged_id rest' tok') \/
  (vid = PNone /\ forall pre rest tok, msg = pre +:+ rest -> ~ tagged_id rest tok).

Definition failing_with (e : exception) : Env :=
  {| clock := fun _ => 0; extract_info := fun _ => ExtractionFails e;
     spawn := fun _ => None; child_exit := fun _ => None;
     send_signal := fun _ => None; wait_child := fun _ => WaitTimesOut;
     readline := fun _ => inl EmptyString;
     run_rclone := fun _ => Completed 0 EmptyString EmptyString |}.

Definition starts_later : string :=
  "ERROR: [youtube] abc12345678: This live event will begin in 5 minutes.".

(** The events a run has added to the trace. *)
Definition new_events (w w' : World) : list event :=
  drop (length (trace w)) (trace w').

(** [keeps f]: the run leaves the component [f] of the state as it was. *)
Definition keeps {B} (f : World -> B) : relation World :=
  fun w w' => f w' = f w.

(** [adds P]: the run only appends events, and all of them satisfy [P]. *)
Definition adds (P : event -> Prop) : relation World :=
  fun w w' => exists evs, trace w' = (trace w ++ evs)%list /\ Forall P evs.

(** A program is stable for [R] when every run relates the state it starts
    from to the state it ends in, however it ends. *)
Definition stable (R : relation World) {A} (m : M A) : Prop :=
  forall w, R w (m w).2.

(** A program that always returns a value. *)
Definition returns {A} (m : M A) : Prop :=
  forall w, exists a, (m w).1 = Ret a.

(** A program that raises nothing but instances of [Exception], and that
    does not run out of fuel. *)
Definition catchable {A} (m : M A) : Prop :=
  forall w, match (m w).1 with
            | Ret _ | Raise (Exc _) => True
            | Raise (SystemExit _) | Diverge => False
            end.

(** A component [f] of the state that does not look at the trace, at the
    count of answers or at the table of children. *)
Class Inert {B} (f : World -> B) : Prop := {
  inert_record : forall e w, f (record e w) = f w;
  inert_ask : forall w, f (next_answer w) = f w;
  inert_procs : forall ps w, f (set_procs ps w) = f w
}.

(** The session the loop owns, and the state of the log throttle. *)
Definition session (w : World) : option nat * PyVal :=
  (current_proc w, current_vid_id w).
Definition throttle (w : World) : string * Z :=
  (last_logged_state w, last_logged_time w).

(** The invariant of the loop: a handle and a tracked id come together. *)
Definition paired (w : World) : Prop :=
  current_proc w = None <-> current_vid_id w = PNone.

Definition is_kill (e : event) : bool :=
  match e with Kill _ => true | _ => false end.
Definition is_popen (e : event) : bool :=
  match e with Popen _ => true | _ => false end.
Definition is_run (e : event) : bool :=
  match e with Run _ _ => true | _ => false end.
Definition no_popen (e : event) : Prop := is_popen e = false.
Definition no_run (e : event) : Prop := is_run e = false.

(** The environment of a recorder that ignores [SIGTERM]: it is alive at
    every poll, and every wait for it times out. The channel is live with
    one video, and rclone succeeds. *)
Definition stubborn_child : Env :=
  {| clock := fun n => Z.of_nat n * 1000000;
     extract_info := fun _ =>
       Extracted (Some {[ "id" := PStr "abc12345678"; "is_live" := PBool true ]});
     spawn := fun _ => None;
     child_exit := fun _ => None;
     send_signal := fun _ => None;
     wait_child := fun _ => WaitTimesOut;
     readline := fun _ => inl "[download]   1.0% of ~10.00MiB";
     run_rclone := fun _ => Completed 0 EmptyString EmptyString |}.

(** A loop in the middle of a recording. *)
Definition recording : World :=
  {| current_proc := Some 0%nat; current_vid_id := PStr "abc12345678";
     last_logged_state := "recording"; last_logged_time := 0;
     procs := [None]; asked := 0; trace := [] |}.

(** [yt_live_watcher.py] with its defaults and a deadline five seconds after
    the start ([MAX_RUN_SECONDS=5]). *)
Definition watcher_5s : Config :=
  {| which := YtLiveWatcher; executable := "/usr/bin/python3";
     CHANNEL_URL := "https://www.youtube.com/@parmarssc/live";
     CHECK_INTERVAL := 15; QUIET_LOG_INTERVAL := 120; HEARTBEAT_INTERVAL := 300;
     OUT_DIR := "./downloads";
     OUT_TEMPLATE := "./downloads/%(upload_date)s - %(title)s - %(id)s.%(ext)s";
     RCLONE_REMOTE_NAME := "gdrive"; GDRIVE_FOLDER := "YTUploads";
     end_time := Some 5000000 |}.

(** [auto_yt_live.py] with its constants. *)
Definition auto_live : Config :=
  {| which := AutoYtLive; executable := "/usr/bin/python3";
     CHANNEL_URL := "https://www.youtube.com/@parmarssc/live";
     CHECK_INTERVAL := 15; QUIET_LOG_INTERVAL := 120; HEARTBEAT_INTERVAL := 300;
     OUT_DIR := "./downloads";
     OUT_TEMPLATE := "./downloads/%(upload_date)s - %(title)s - %(id)s.%(ext)s";
     RCLONE_REMOTE_NAME := "gdrive"; GDRIVE_FOLDER := "YTUploads";
     end_time := None |}.

Definition ytdlp_cmd (cfg : Config) (video_url : string) : list string :=
  [executable cfg; "-m"; "yt_dlp"; "--no-warnings"; "--newline"; "--no-overwrites";
   "--live-from-start"; "--hls-use-mpegts"; "--progress"; "-o"; OUT_TEMPLATE cfg;
   video_url].


(** What [upload_downloads_to_drive] logs after it has called rclone, for
    each way the call can end. *)
Definition upload_report (a : run_answer) : list event :=
  match a with
  | Completed rc out err =>
      if rc =? 0 then
        Print LUploadComplete ::
        (if String.eqb err EmptyString then [] else [Print (LRcloneLog err)])
      else [Print (LUploadError rc); Print (LRcloneStderr err); Print (LRcloneStdout out)]
  | RunTimesOut _ _ | RunFails (TimeoutExpired _ _ _) => [Print LUploadTimedOut]
  | RunFails e => [Print (LUploadUnexpected (exc_str e))]
  end.

(** An rclone that is cut off after thirty minutes, with what it had written
    to its two streams by then. *)
Definition rclone_hangs : Env :=
  {| clock := fun n => Z.of_nat n * 1000000;
     extract_info := fun _ => Extracted None;
     spawn := fun _ => None;
     child_exit := fun _ => None;
     send_signal := fun _ => None;
     wait_child := fun _ => WaitTimesOut;
     readline := fun _ => inl EmptyString;
     run_rclone := fun _ =>
       RunTimesOut "Transferred: 1.2 GiB / 4 GiB, 30%"
                   "googleapi: Error 403: User rate limit exceeded" |}.

(** Whether a log line shows the text [s]. *)
Definition shows (s : string) (e : event) : bool :=
  match e with
  | Print l => contains s (render l)
  | _ => false
  end.


(** The number of times the line [l] is among the events [evs]. *)
Definition count_line (l : line) (evs : list event) : nat :=
  length (filter (fun e => e = Print l) evs).

(** [pres I]: a run that starts in a state where [I] holds ends in one. *)
Definition pres (I : World -> Prop) : relation World :=
  fun w w' => I w -> I w'.

(** The states at the head of [while True]: the one [watch_loop] enters the
    loop with, and the one each completed iteration leaves. *)
Inductive boundary (cfg : Config) (env : Env) : World -> Prop :=
| boundary_enter :
    boundary cfg env (record (Print (LMonitoring (CHANNEL_URL cfg))) initial)
| boundary_next w fuel w' :
    boundary cfg env w ->
    watch_iteration cfg env fuel w = (Ret Next, w') ->
    boundary cfg env w'.

(** The channel is live with a video other than the one [recording] tracks;
    the old recorder exits on [SIGTERM], the new one after a few polls. *)
Definition live_other : Env :=
  {| clock := fun n => Z.of_nat n * 1000000;
     extract_info := fun _ =>
       Extracted (Some {[ "id" := PStr "xyz98765432"; "title" := PStr "Class 2";
                          "is_live" := PBool true ]});
     spawn := fun _ => None;
     child_exit := fun n => if (n <? 10)%nat then None else Some 0;
     send_signal := fun _ => None;
     wait_child := fun _ => WaitExited (-15);
     readline := fun _ => inl "[download]   1.0% of ~10.00MiB";
     run_rclone := fun _ => Completed 0 EmptyString EmptyString |}.

Definition live_other_info : dict :=
  {[ "status" := PStr "live"; "video_id" := PStr "xyz98765432";
     "title" := PStr "Class 2" ]}.

Definition no_kill (e : event) : Prop := is_kill e = false.

(** The child the loop tracks is in the table of children. *)
Definition tracked (w : World) : Prop :=
  forall p, current_proc w = Some p -> (p < length (procs w))%nat.

(** A run that keeps the handle, forgets no child and sends no [Kill]. *)
Definition calm : relation World :=
  fun w w' =>
    current_proc w' = current_proc w /\
    (length (procs w) <= length (procs w'))%nat /\
    adds no_kill w w'.

(** What holds of every state of the loop: the tracked child is in the
    table, and no [Kill] has been sent so far. *)
Definition unkilled (w : World) : Prop :=
  tracked w /\ Forall no_kill (trace w).

(** * Further statements *)

(** A program that never raises [SystemExit]: it returns, raises an
    [Exception], or runs out of fuel. *)
Definition mild {A} (m : M A) : Prop :=
  forall w, match (m w).1 with
            | Raise (SystemExit _) => False
            | _ => True
            end.

(** A program that never returns: it raises, or runs out of fuel. *)
Definition never_returns {A} (m : M A) : Prop :=
  forall w a, (m w).1 <> Ret a.

(** [at_most_one f]: the run only appends events, at most one of which
    satisfies [f]. *)
Definition at_most_one (f : event -> bool) : relation World :=
  fun w w' =>
    exists evs, trace w' = (trace w ++ evs)%list /\
                (length (List.filter f evs) <= 1)%nat.

Definition is_extract (e : event) : bool :=
  match e with ExtractInfo _ _ => true | _ => false end.
Definition no_extract (e : event) : Prop := is_extract e = false.

(** The events by which the loop acts on the world beyond its log: probes,
    spawns, signals, waits and uploads. *)
Definition is_action (e : event) : bool :=
  match e with
  | ExtractInfo _ _ | Popen _ | Terminate _ | Wait _ _ | Kill _ | Run _ _ => true
  | Print _ | Readline _ | Sleep _ => false
  end.

Definition watch_url (candidate_vid_id : PyVal) : string :=
  "https://www.youtube.com/watch?v=" +:+ py_str candidate_vid_id.

(** [yt_live_watcher.py] started with [CHECK_INTERVAL=-1] and no deadline. *)
Definition negative_interval : Config :=
  {| which := YtLiveWatcher; executable := "/usr/bin/python3";
     CHANNEL_URL := "https://www.youtube.com/@parmarssc/live";
     CHECK_INTERVAL := -1; QUIET_LOG_INTERVAL := 120; HEARTBEAT_INTERVAL := 300;
     OUT_DIR := "./downloads";
     OUT_TEMPLATE := "./downloads/%(upload_date)s - %(title)s - %(id)s.%(ext)s";
     RCLONE_REMOTE_NAME := "gdrive"; GDRIVE_FOLDER := "YTUploads";
     end_time := None |}.

(** [emits f l]: the run only appends events, and those among them that [f]
    selects are the list [l], in this order. *)
Definition emits (f : event -> bool) (l : list event) : relation World :=
  fun w w' => exists evs, trace w' = (trace w ++ evs)%list /\ List.filter f evs = l.

Definition is_sleep (e : event) : bool :=
  match e with Sleep _ => true | _ => false end.

(** The fallback of [msg_map.get(status, ...)]. *)
Definition is_unknown_status (e : event) : bool :=
  match e with Print (LUnknownStatus _) => true | _ => false end.
Definition known_status (e : event) : Prop := is_unknown_status e = false.



(** [end_time = start_time + timedelta(seconds=MAX_RUN_SECONDS)
     if MAX_RUN_SECONDS > 0 else None], in microseconds. *)
Definition end_time_of (start_time MAX_RUN_SECONDS : Z) : option Z :=
  if 0 <? MAX_RUN_SECONDS then Some (start_time + MAX_RUN_SECONDS * 1000000) else None.

(** A program that does not return: it raises, or it runs on. *)
Definition endless {A} (r : result A) : Prop :=
  match r with Ret _ => False | Raise _ | Diverge => True end.

(** The exception of an extraction that fails, in the constructor or in
    the call. *)
Definition failure_of (a : extraction) : option exception :=
  match a with
  | Extracted _ => None
  | ExtractionFails e | ConstructorFails e => Some e
  end.

(** The call of [extract_info] that a probe makes, given how it goes: none
    when the constructor has raised. *)
Definition probe_calls (a : extraction) (video_url : string) (extract_flat : bool)
  : list event :=
  match a with
  | ConstructorFails _ => []
  | Extracted _ | ExtractionFails _ => [ExtractInfo video_url extract_flat]
  end.



(** ** The heartbeat *)

Definition is_heartbeat (e : event) : bool :=
  match e with Print (LHeartbeat _) => true | _ => false end.
Definition no_heartbeat (e : event) : Prop := is_heartbeat e = false.

(** Reading the recorder's output never raises. *)
Definition readable (env : Env) : Prop :=
  forall n, exists s, readline env n = inl s.

(** A deadline that the clock has passed stays passed: there is none, or
    the clock is not set back behind it. *)
Definition deadline_stays_passed (cfg : Config) (env : Env) : Prop :=
  forall e n m,
    which cfg = YtLiveWatcher -> end_time cfg = Some e ->
    (n <= m)%nat -> e <= clock env n -> e <= clock env m.

(** The exit of the child that the loop tracks has been seen. *)
Definition seen_exit (w : World) : Prop :=
  forall p, current_proc w = Some p -> exists c, mjoin (procs w !! p) = Some c.

(** The deadline of [yt_live_watcher.py] was found passed. *)
Definition overdue (cfg : Config) (env : Env) (w : World) : Prop :=
  which cfg = YtLiveWatcher /\
  exists e n, end_time cfg = Some e /\ (n <= asked w)%nat /\ e <= clock env n.

(** What holds at the head of every iteration when nothing disturbs the
    relay of the recorder's output: no recorder is tracked whose exit has
    not been seen, unless the deadline has passed. *)
Definition settled (cfg : Config) (env : Env) (w : World) : Prop :=
  seen_exit w \/ overdue cfg env w.

(** A run that changes nothing but the trace. *)
Definition still : relation World :=
  fun w w' =>
    current_proc w' = current_proc w /\ procs w' = procs w /\ asked w' = asked w.

(** [Q] holds where the program returns or raises. *)
Definition exits {A} (Q : World -> Prop) (x : result A * World) : Prop :=
  match x.1 with
  | Diverge => True
  | Ret _ | Raise _ => Q x.2
  end.

(** A stream of seven minutes: the clock advances by one second with every
    answer, and the recorder exits at the 420th. *)
Definition long_stream : Env :=
  {| clock := fun n => Z.of_nat n * 1000000;
     extract_info := fun _ =>
       Extracted (Some {[ "id" := PStr "abc12345678"; "title" := PStr "Class 1";
                          "is_live" := PBool true ]});
     spawn := fun _ => None;
     child_exit := fun n => if (n <? 420)%nat then None else Some 0;
     send_signal := fun _ => None;
     wait_child := fun _ => WaitExited 0;
     readline := fun _ => inl "[download]   1.0% of ~10.00MiB";
     run_rclone := fun _ => Completed 0 EmptyString EmptyString |}.


(** ** Elapsed time *)







(** ** Sleeping *)

Lemma sleep_refusal_None ms : 0 <= ms < 9223372037000 -> sleep_refusal ms = None.
Proof.
  intros H. unfold sleep_refusal.
  destruct (9223372037000 <=? Z.abs ms) eqn:E1; [apply Z.leb_le in E1; lia|].
  destruct (ms <? 0) eqn:E2; [apply Z.ltb_lt in E2; lia|]. done.
Qed.

Lemma sleep_refusal_Some ms :
  ms < 0 \/ 9223372037000 <= ms -> exists e, sleep_refusal ms = Some e.
Proof.
  intros H. unfold sleep_refusal.
  destruct (9223372037000 <=? Z.abs ms) eqn:E1; [by eexists|].
  apply Z.leb_gt in E1.
  destruct (ms <? 0) eqn:E2; [by eexists|]. apply Z.ltb_ge in E2. lia.
Qed.

Lemma sleep_accepted ms w :
  0 <= ms < 9223372037000 -> sleep ms w = (Ret tt, record (Sleep ms) w).
Proof. intros H. unfold sleep. by rewrite (sleep_refusal_None ms H). Qed.

Lemma sleep_refused ms e w :
  sleep_refusal ms = Some e -> sleep ms w = (Raise (Exc e), w).
Proof. intros H. unfold sleep. by rewrite H. Qed.
(** * Properties *)

(** ** The message pattern *)

Lemma append_nil s : EmptyString +:+ s = s.
Proof. reflexivity. Qed.

Lemma append_cons c s r : String c s +:+ r = String c (s +:+ r).
Proof. reflexivity. Qed.

Ltac sapp := repeat (rewrite ?append_nil, ?append_cons in * ); simpl in *.

Lemma space_not_id c : is_space c = true -> is_id_char c = false.
Proof.
  unfold is_space, is_id_char, code. intros H.
  destruct c as [[] [] [] [] [] [] [] []]; vm_compute in H |- *; congruence.
Qed.

Lemma skip_spaces_app ws r :
  string_forall is_space ws = true ->
  skip_spaces (ws +:+ r) = skip_spaces r.
Proof.
  induction ws as [|c ws IH]; simpl; [done|].
  intros [Hc Hws]%andb_prop. rewrite Hc. auto.
Qed.

Lemma skip_spaces_id_head c r :
  is_id_char c = true -> skip_spaces (String c r) = String c r.
Proof.
  intros Hc. simpl. destruct (is_space c) eqn:Hs; [|done].
  apply space_not_id in Hs. congruence.
Qed.

Lemma take_id_app tok post :
  string_forall is_id_char tok = true ->
  take_id (String.length tok) (tok +:+ post) = Some tok.
Proof.
  induction tok as [|c tok IH]; simpl; [done|].
  intros [Hc Htok]%andb_prop. rewrite Hc, IH by done. done.
Qed.

Lemma take_id_inv n s tok :
  take_id n s = Some tok ->
  exists post, s = tok +:+ post /\ String.length tok = n /\
               string_forall is_id_char tok = true.
Proof.
  revert s tok. induction n as [|n IH]; simpl; intros s tok H.
  - injection H as <-. by exists s.
  - destruct s as [|c r]; [done|].
    destruct (is_id_char c) eqn:Hc; [|done].
    destruct (take_id n r) as [t|] eqn:Ht; [|done].
    injection H as <-. destruct (IH _ _ Ht) as (post & -> & <- & Hall).
    exists post. simpl. by rewrite Hc, Hall.
Qed.

Lemma skip_spaces_inv s :
  exists ws, s = ws +:+ skip_spaces s /\ string_forall is_space ws = true.
Proof.
  induction s as [|c r (ws & Hr & Hws)]; [by exists EmptyString|].
  simpl. destruct (is_space c) eqn:Hc.
  - exists (String c ws). simpl. rewrite Hc, Hws. split; [|done]. change (String c r = String c (ws +:+ skip_spaces r)). by rewrite <- Hr.
  - by exists EmptyString.
Qed.

Lemma drop_prefix_app p s : drop_prefix p (p +:+ s) = Some s.
Proof. induction p as [|a p IH]; simpl; [done|]. by rewrite Ascii.eqb_refl. Qed.

Lemma drop_prefix_inv p s r : drop_prefix p s = Some r -> s = p +:+ r.
Proof.
  revert s. induction p as [|a p IH]; simpl; intros s H.
  - by injection H as <-.
  - destruct s as [|b s]; [done|].
    destruct (Ascii.eqb a b) eqn:Hab; [|done].
    apply Ascii.eqb_eq in Hab as <-. by rewrite (IH _ H).
Qed.

(** The matcher decides the pattern at the start of the string. *)
Lemma match_youtube_id_spec s tok :
  match_youtube_id s = Some tok <-> tagged_id s tok.
Proof.
  unfold match_youtube_id, tagged_id. split.
  - destruct (drop_prefix "[youtube]" s) as [r|] eqn:Hr; [|done].
    intros (post & Hpost & Hlen & Hall)%take_id_inv.
    apply drop_prefix_inv in Hr. destruct (skip_spaces_inv r) as (ws & Hws & Hsp).
    exists ws, post. rewrite Hpost in Hws. rewrite <- Hws. done.
  - intros (ws & post & -> & Hws & Hlen & Hall).
    rewrite drop_prefix_app, skip_spaces_app by done.
    destruct tok as [|c tok]; [done|].
    simpl in Hall. apply andb_prop in Hall as [Hc Hall].
    change (String c tok +:+ post) with (String c (tok +:+ post)).
    rewrite skip_spaces_id_head by done.
    change (String c (tok +:+ post)) with (String c tok +:+ post).
    rewrite <- Hlen. apply take_id_app. simpl. by rewrite Hc, Hall.
Qed.

Lemma tagged_id_functional s tok tok' :
  tagged_id s tok -> tagged_id s tok' -> tok = tok'.
Proof. rewrite <- !match_youtube_id_spec. congruence. Qed.

(** [re.search] finds the leftmost place where the pattern matches, and
    finds nothing only when it matches nowhere. *)
Lemma re_search_youtube_id_Some s tok :
  re_search_youtube_id s = Some tok <->
  exists pre rest,
    s = pre +:+ rest /\ tagged_id rest tok /\
    forall pre' rest' tok',
      s = pre' +:+ rest' -> (String.length pre' < String.length pre)%nat ->
      ~ tagged_id rest' tok'.
Proof.
  revert tok. induction s as [|c s IH]; intros tok; simpl.
  - split; [done|].
    intros (pre & rest & Hs & Ht & _). destruct pre; [|done]. sapp; subst.
    apply match_youtube_id_spec in Ht. done.
  - destruct (match_youtube_id (String c s)) as [g|] eqn:E.
    + split.
      * intros [= <-]. exists EmptyString, (String c s). split; [done|].
        split; [by apply match_youtube_id_spec|]. simpl. intros. lia.
      * intros (pre & rest & Hs & Ht & Hleft). destruct pre as [|a pre].
        -- sapp; subst. apply match_youtube_id_spec in Ht. congruence.
        -- exfalso. apply (Hleft EmptyString (String c s) g); [done|simpl; lia|].
           by apply match_youtube_id_spec.
    + rewrite IH. split.
      * intros (pre & rest & -> & Ht & Hleft). exists (String c pre), rest.
        split; [done|]. split; [done|]. intros pre' rest' tok' Hs Hlen.
        destruct pre' as [|a pre'].
        -- sapp; subst rest'. rewrite <- match_youtube_id_spec. congruence.
        -- sapp. injection Hs as -> Hs. apply (Hleft pre' rest' tok' Hs). lia.
      * intros (pre & rest & Hs & Ht & Hleft). destruct pre as [|a pre].
        -- sapp; subst. apply match_youtube_id_spec in Ht. congruence.
        -- sapp. injection Hs as -> ->. exists pre, rest. split; [done|].
           split; [done|]. intros pre' rest' tok' Hs Hlen.
           apply (Hleft (String a pre') rest' tok'); [by rewrite Hs|simpl; lia].
Qed.

Lemma re_search_youtube_id_None s :
  re_search_youtube_id s = None <->
  forall pre rest tok, s = pre +:+ rest -> ~ tagged_id rest tok.
Proof.
  induction s as [|c s IH]; simpl.
  - split; [|done].
    intros _ pre rest tok Hs. destruct pre; [|done]. sapp; subst.
    rewrite <- match_youtube_id_spec. done.
  - destruct (match_youtube_id (String c s)) as [g|] eqn:E.
    + split; [done|]. intros H. exfalso.
      apply (H EmptyString (String c s) g); [done|]. by apply match_youtube_id_spec.
    + rewrite IH. split.
      * intros H pre rest tok Hs. destruct pre as [|a pre].
        -- sapp; subst. rewrite <- match_youtube_id_spec. congruence.
        -- sapp. injection Hs as -> ->. by apply (H pre rest tok).
      * intros H pre rest tok Hs. apply (H (String c pre) rest tok). by rewrite Hs.
Qed.

(** ** The status prober *)

Ltac run_prog :=
  cbv [get_video_info try_except try_finally except_Exception bind ret raise
       YoutubeDL ydl_extract_info emit print modify get ask datetime_now];
  cbn [fst snd asked record next_answer].

Ltac fin d := destruct d; cbn [andb negb]; repeat split; try done; simpl; auto 10.

(** C4. [get_video_info] always returns, and the dictionary it returns has
    one of the five statuses. A deep scan never answers [inconclusive]: with
    no live and no upcoming signal in the info dictionary its status is
    [not_live], and an absent extraction result gives [not_live] in either
    mode. *)
Theorem get_video_info_status env url deep w :
  exists d w' s,
    get_video_info env url deep w = (Ret d, w') /\
    d !! "status" = Some (PStr s) /\
    In s statuses /\
    (if deep then s <> "inconclusive" else True) /\
    match extract_info env (asked w) with
    | Extracted None => s = "not_live"
    | Extracted (Some info) =>
        if deep && negb (live_signal info) && negb (upcoming_signal info)
        then s = "not_live" else True
    | ExtractionFails _ | ConstructorFails _ => True
    end.
Proof.
  run_prog. unfold live_signal, upcoming_signal, statuses.
  destruct (extract_info env (asked w)) as [[info|]|e|e]; cbn [info_present].
  - destruct (bool_decide (info = ∅)) eqn:Hempty.
    { apply bool_decide_eq_true in Hempty as ->.
      do 2 eexists. exists "not_live". split; [reflexivity|].
      rewrite lookup_singleton_eq. fin deep. }
    destruct (truthy (dict_get info "is_live")) eqn:Hlive.
    { do 2 eexists. exists "live". split; [reflexivity|].
      rewrite lookup_insert_eq, andb_false_r. fin deep. }
    destruct (truthy (dict_get info "is_upcoming")
              || py_eq (dict_get info "live_status") (PStr "is_upcoming")) eqn:Hup.
    { do 2 eexists. exists "upcoming". split; [reflexivity|].
      rewrite lookup_insert_eq, andb_false_r. fin deep. }
    destruct deep; cbn [negb andb].
    + do 2 eexists. exists "not_live". split; [reflexivity|].
      rewrite lookup_insert_eq. fin true.
    + destruct (truthy (dict_get info "id")).
      * do 2 eexists. exists "inconclusive". split; [reflexivity|].
        rewrite lookup_insert_eq. fin true.
      * do 2 eexists. exists "not_live". split; [reflexivity|].
        rewrite lookup_insert_eq. fin true.
  - do 2 eexists. exists "not_live". split; [reflexivity|].
    rewrite lookup_singleton_eq. fin deep.
  - destruct e as [msg|msg out err|msg].
    + destruct (contains "live event will begin" msg).
      * do 2 eexists. exists "upcoming". split; [reflexivity|].
        rewrite lookup_insert_eq. fin deep.
      * do 2 eexists. exists "error". split; [reflexivity|].
        rewrite lookup_insert_eq. fin deep.
    + do 2 eexists. exists "error". split; [reflexivity|].
      rewrite lookup_insert_eq. fin deep.
    + do 2 eexists. exists "error". split; [reflexivity|].
      rewrite lookup_insert_eq. fin deep.
  - destruct e as [msg|msg out err|msg].
    + destruct (contains "live event will begin" msg).
      * do 2 eexists. exists "upcoming". split; [reflexivity|].
        rewrite lookup_insert_eq. fin deep.
      * do 2 eexists. exists "error". split; [reflexivity|].
        rewrite lookup_insert_eq. fin deep.
    + do 2 eexists. exists "error". split; [reflexivity|].
      rewrite lookup_insert_eq. fin deep.
    + do 2 eexists. exists "error". split; [reflexivity|].
      rewrite lookup_insert_eq. fin deep.
Qed.

(** C5. A failed extraction, whether the [YoutubeDL] constructor or the
    call of [extract_info] raises, makes [get_video_info] return a
    dictionary. For a [DownloadError], the class in which yt-dlp reports
    that an extraction has failed, whose message contains
    [live event will begin], the status is [upcoming], the message is
    carried as [errmsg], and [video_id] is the eleven-character token of the
    leftmost place in the message where the whole pattern matches (the
    [[youtube]] tag, any run of white space, eleven identifier characters),
    or [None] when the pattern matches nowhere. Every other failure, a
    [DownloadError] without that text or an exception of another class,
    gives [error] with the message. *)
Theorem get_video_info_on_failure env url deep w e :
  failure_of (extract_info env (asked w)) = Some e ->
  exists d w',
    get_video_info env url deep w = (Ret d, w') /\
    match e with
    | DownloadError msg =>
        if contains "live event will begin" msg then
          exists vid,
            d = {[ "status" := PStr "upcoming"; "video_id" := vid;
                   "errmsg" := PStr msg ]} /\
            id_of_message msg vid
        else d = {[ "status" := PStr "error"; "errmsg" := PStr msg ]}
    | _ => d = {[ "status" := PStr "error"; "errmsg" := PStr (exc_str e) ]}
    end.
Proof.
  intros He. run_prog.
  assert (Hup : forall msg, contains "live event will begin" msg = true ->
            exists vid,
              ({[ "status" := PStr "upcoming";
                  "video_id" := match re_search_youtube_id msg with
                                | Some tok => PStr tok
                                | None => PNone
                                end;
                  "errmsg" := PStr msg ]} : dict)
              = {[ "status" := PStr "upcoming"; "video_id" := vid;
                   "errmsg" := PStr msg ]} /\
              id_of_message msg vid).
  { intros msg _. eexists. split; [reflexivity|]. unfold id_of_message.
    destruct (re_search_youtube_id msg) as [tok|] eqn:Hre.
    - left. apply re_search_youtube_id_Some in Hre as (pre & rest & H1 & H2 & H3).
      exists pre, rest, tok. auto.
    - right. split; [done|]. by apply re_search_youtube_id_None. }
  destruct (extract_info env (asked w)) as [info|e'|e']; simplify_eq/=;
    (destruct e as [msg|msg out err|msg]; [|by eauto..];
     destruct (contains "live event will begin" msg) eqn:Hc; [|by eauto];
     do 2 eexists; split; [reflexivity|]; by apply Hup).
Qed.

Lemma get_video_info_on_failure_witness :
  exists d w',
    get_video_info (failing_with (DownloadError starts_later))
      "https://www.youtube.com/@parmarssc/live" false initial = (Ret d, w') /\
    exists vid,
      d = {[ "status" := PStr "upcoming"; "video_id" := vid;
             "errmsg" := PStr starts_later ]} /\
      id_of_message starts_later vid.
Proof.
  exact (get_video_info_on_failure (failing_with (DownloadError starts_later))
           "https://www.youtube.com/@parmarssc/live" false initial
           (DownloadError starts_later) eq_refl).
Defined.

(** ** Reasoning about runs *)

#[global] Instance keeps_preorder {B} (f : World -> B) : PreOrder (keeps f).
Proof.
  split; [by intros w|]. intros w1 w2 w3 H12 H23. unfold keeps in *. congruence.
Qed.

#[global] Instance adds_preorder (P : event -> Prop) : PreOrder (adds P).
Proof.
  split.
  - intros w. exists []. by rewrite app_nil_r.
  - intros w1 w2 w3 (e1 & H1 & F1) (e2 & H2 & F2). exists (e1 ++ e2)%list.
    rewrite H2, H1, <- app_assoc. split; [done|]. by apply Forall_app.
Qed.

Lemma adds_new_events P w w' : adds P w w' -> Forall P (new_events w w').
Proof.
  intros (evs & H & F). unfold new_events. by rewrite H, drop_app_length.
Qed.

Lemma adds_trace P w w' :
  adds P w w' -> trace w' = (trace w ++ new_events w w')%list.
Proof.
  intros (evs & H & F). unfold new_events. by rewrite H, drop_app_length.
Qed.

Section Stable.
Context (R : relation World) `{!PreOrder R}.

Lemma stable_ret {A} (a : A) : stable R (ret a).
Proof. intros w. reflexivity. Qed.

Lemma stable_raise {A} e : stable R (@raise A e).
Proof. intros w. reflexivity. Qed.

Lemma stable_diverge {A} : stable R (@diverge A).
Proof. intros w. reflexivity. Qed.

Lemma stable_get : stable R get.
Proof. intros w. reflexivity. Qed.

Lemma stable_modify f : (forall w, R w (f w)) -> stable R (modify f).
Proof. intros H w. apply H. Qed.

Lemma stable_bind {A B} (m : M A) (f : A -> M B) :
  stable R m -> (forall a, stable R (f a)) -> stable R (bind m f).
Proof.
  intros Hm Hf w. unfold bind. specialize (Hm w).
  destruct (m w) as [[a| |] w1]; simpl in *; [|done..].
  etrans; [exact Hm|]. apply Hf.
Qed.

Lemma stable_try_except {A} (body : M A) h :
  stable R body -> (forall e k, h e = Some k -> stable R k) ->
  stable R (try_except body h).
Proof.
  intros Hb Hh w. unfold try_except. specialize (Hb w).
  destruct (body w) as [[a|e|] w1]; simpl in *; [done| |done].
  destruct (h e) as [k|] eqn:He; [|done].
  etrans; [exact Hb|]. by apply (Hh e k).
Qed.

Lemma stable_try_finally {A} (body : M A) final :
  stable R body -> stable R final -> stable R (try_finally body final).
Proof.
  intros Hb Hf w. unfold try_finally. specialize (Hb w).
  destruct (body w) as [[a|e|] w1]; simpl in *; [| |done].
  - specialize (Hf w1). destruct (final w1) as [[[]|e'|] w2]; simpl in *;
      by etrans.
  - specialize (Hf w1). destruct (final w1) as [[[]|e'|] w2]; simpl in *;
      by etrans.
Qed.

Lemma stable_except_Exception {A} (h : exception -> M A) e k :
  (forall x, stable R (h x)) -> except_Exception h e = Some k -> stable R k.
Proof. intros Hh. destruct e; simpl; [|done]. intros [= <-]. apply Hh. Qed.

Lemma stable_ask env {A} (s : Env -> nat -> A) :
  (forall w, R w (next_answer w)) -> stable R (ask env s).
Proof. intros H w. apply H. Qed.

Lemma stable_emit e : (forall w, R w (record e w)) -> stable R (emit e).
Proof. intros H w. apply H. Qed.
End Stable.

Lemma adds_record (P : event -> Prop) e w : P e -> adds P w (record e w).
Proof. intros H. exists [e]. split; [done|]. by constructor. Qed.

Lemma adds_same_trace (P : event -> Prop) w w' : trace w' = trace w -> adds P w w'.
Proof. intros H. exists []. by rewrite app_nil_r. Qed.

#[global] Instance session_inert : Inert session.
Proof. by split. Qed.
#[global] Instance throttle_inert : Inert throttle.
Proof. by split. Qed.
#[global] Instance current_proc_inert : Inert current_proc.
Proof. by split. Qed.
#[global] Instance current_vid_id_inert : Inert current_vid_id.
Proof. by split. Qed.

Ltac calm_side :=
  progress unfold calm;
  split; [reflexivity|];
  split; [simpl; rewrite ?length_insert, ?length_app; lia|];
  first [ apply adds_same_trace; reflexivity | apply adds_record; done ].

(** Side conditions that later sections add. *)
Ltac stab_extra := fail.

Ltac stab_side :=
  intros;
  first [ reflexivity
        | apply inert_record
        | apply inert_ask
        | apply inert_procs
        | apply adds_same_trace; reflexivity
        | apply adds_record; done
        | exact (fun H => H)
        | calm_side
        | stab_extra ].

Ltac stab_step :=
  lazymatch goal with
  | |- stable _ (ret _) => apply stable_ret; tc_solve
  | |- stable _ (raise _) => apply stable_raise; tc_solve
  | |- stable _ diverge => apply stable_diverge; tc_solve
  | |- stable _ get => apply stable_get; tc_solve
  | |- stable _ (bind _ _) => apply stable_bind; [tc_solve| |intros ?]
  | |- stable _ (try_except _ _) => apply stable_try_except; [tc_solve| |intros ? ? ?]
  | |- stable _ (try_finally _ _) => apply stable_try_finally; [tc_solve| |]
  | |- stable _ (modify _) => apply stable_modify; stab_side
  | |- stable _ (ask _ _) => apply stable_ask; stab_side
  | |- stable _ (emit _) => apply stable_emit; stab_side
  | |- stable _ (print _) => apply stable_emit; stab_side
  | H : except_Exception _ ?e = Some ?k |- stable _ ?k =>
      destruct e; simpl in H; [injection H as <-|discriminate H]
  | H : match ?e with _ => _ end = Some ?k |- stable _ ?k =>
      destruct e; try discriminate H; try (injection H as <-)
  | |- stable _ (match ?x with _ => _ end) => destruct x eqn:?
  | |- stable _ (let '(_, _) := ?x in _) => destruct x
  end.

Ltac stab := repeat stab_step; try assumption; try solve [eauto].

Section Frames.
Context (cfg : Config) (env : Env).
Context {B} (f : World -> B) `{!Inert f}.

Lemma keeps_sleep ms : stable (keeps f) (sleep ms).
Proof. unfold sleep. stab. Qed.

Lemma keeps_poll p : stable (keeps f) (poll env p).
Proof. unfold poll, returncode, set_returncode. stab. Qed.

Lemma keeps_get_video_info url deep : stable (keeps f) (get_video_info env url deep).
Proof. unfold get_video_info, YoutubeDL, ydl_extract_info. stab. Qed.

Lemma keeps_upload : stable (keeps f) (upload_downloads_to_drive cfg env).
Proof. unfold upload_downloads_to_drive, subprocess_run. stab. Qed.

Lemma keeps_start_record url : stable (keeps f) (start_record cfg env url).
Proof. unfold start_record, subprocess_Popen. stab. Qed.

Lemma keeps_deadline_reached : stable (keeps f) (deadline_reached cfg env).
Proof. unfold deadline_reached, datetime_now. stab. Qed.

Lemma keeps_relay_progress fuel p : stable (keeps f) (relay_progress cfg env fuel p).
Proof.
  induction fuel as [|fuel IH]; simpl; [stab|].
  pose proof keeps_deadline_reached. pose proof (keeps_poll p).
  unfold stdout_readline, sleep. stab.
Qed.
End Frames.

(** *** Programs that return, and programs whose exceptions can be caught *)

Lemma run_bind {A B} (m : M A) (f : A -> M B) w :
  bind m f w =
  match m w with
  | (Ret a, w') => f a w'
  | (Raise e, w') => (Raise e, w')
  | (Diverge, w') => (Diverge, w')
  end.
Proof. reflexivity. Qed.

Lemma returns_run {A} (m : M A) w : returns m -> exists a, m w = (Ret a, (m w).2).
Proof. intros H. destruct (H w) as [a Ha]. exists a. by destruct (m w); simplify_eq/=. Qed.

Lemma returns_catchable {A} (m : M A) : returns m -> catchable m.
Proof. intros H w. destruct (H w) as [a ->]. done. Qed.

Lemma returns_ret {A} (a : A) : returns (ret a).
Proof. intros w. by exists a. Qed.

Lemma returns_get : returns get.
Proof. intros w. by exists w. Qed.

Lemma returns_modify f : returns (modify f).
Proof. intros w. by exists tt. Qed.

Lemma returns_emit e : returns (emit e).
Proof. intros w. by exists tt. Qed.

Lemma returns_ask env {A} (s : Env -> nat -> A) : returns (ask env s).
Proof. intros w. by eexists. Qed.

Lemma returns_bind {A B} (m : M A) (f : A -> M B) :
  returns m -> (forall a, returns (f a)) -> returns (bind m f).
Proof.
  intros Hm Hf w. rewrite run_bind. destruct (returns_run m w Hm) as [a ->].
  apply Hf.
Qed.

Lemma catchable_raise {A} e : catchable (@raise A (Exc e)).
Proof. by intros w. Qed.

Lemma catchable_bind {A B} (m : M A) (f : A -> M B) :
  catchable m -> (forall a, catchable (f a)) -> catchable (bind m f).
Proof.
  intros Hm Hf w. rewrite run_bind. specialize (Hm w).
  destruct (m w) as [[a|[e|c]|] w1]; simpl in *; try done. apply Hf.
Qed.

Lemma catchable_try_except {A} (body : M A) h :
  catchable body -> (forall e k, h e = Some k -> catchable k) ->
  catchable (try_except body h).
Proof.
  intros Hb Hh w. unfold try_except. specialize (Hb w).
  destruct (body w) as [[a|[e|c]|] w1]; simpl in *; try done.
  destruct (h (Exc e)) as [k|] eqn:He; [|done]. by apply (Hh _ _ He).
Qed.

Lemma catchable_try_finally {A} (body : M A) final :
  catchable body -> catchable final -> catchable (try_finally body final).
Proof.
  intros Hb Hf w. unfold try_finally. specialize (Hb w).
  destruct (body w) as [[a|[e|c]|] w1]; simpl in *; try done;
    specialize (Hf w1); by destruct (final w1) as [[[]|[e'|c']|] w2].
Qed.

(** A handler that takes every [Exception] and returns makes the whole
    [try] return. *)
Lemma returns_try_except {A} (body : M A) h :
  catchable body ->
  (forall e, exists k, h (Exc e) = Some k /\ returns k) ->
  returns (try_except body h).
Proof.
  intros Hb Hh w. unfold try_except. specialize (Hb w).
  destruct (body w) as [[a|[e|c]|] w1]; simpl in *; try done; [by eexists|].
  destruct (Hh e) as (k & -> & Hk). apply Hk.
Qed.

Lemma returns_try_finally {A} (body : M A) final :
  returns body -> returns final -> returns (try_finally body final).
Proof.
  intros Hb Hf w. unfold try_finally.
  destruct (returns_run body w Hb) as [a Ha]. rewrite Ha.
  destruct (returns_run final (body w).2 Hf) as [[] Hfin]. rewrite Hfin.
  by eexists.
Qed.

Ltac ret_step :=
  lazymatch goal with
  | |- returns (ret _) => apply returns_ret
  | |- returns get => apply returns_get
  | |- returns (modify _) => apply returns_modify
  | |- returns (emit _) => apply returns_emit
  | |- returns (print _) => apply returns_emit
  | |- returns (ask _ _) => apply returns_ask
  | |- returns (bind _ _) => apply returns_bind; [|intros ?]
  | |- returns (try_finally _ _) => apply returns_try_finally
  | |- returns (match ?x with _ => _ end) => destruct x
  | |- returns (let '(_, _) := ?x in _) => destruct x
  | |- catchable (ret _) => apply returns_catchable, returns_ret
  | |- catchable get => apply returns_catchable, returns_get
  | |- catchable (modify _) => apply returns_catchable, returns_modify
  | |- catchable (emit _) => apply returns_catchable, returns_emit
  | |- catchable (print _) => apply returns_catchable, returns_emit
  | |- catchable (ask _ _) => apply returns_catchable, returns_ask
  | |- catchable (raise (Exc _)) => apply catchable_raise
  | |- catchable (bind _ _) => apply catchable_bind; [|intros ?]
  | |- catchable (try_finally _ _) => apply catchable_try_finally
  | |- catchable (try_except _ _) => apply catchable_try_except; [|intros ? ? ?]
  | H : except_Exception _ ?e = Some ?k |- catchable ?k =>
      destruct e; simpl in H; [injection H as <-|discriminate H]
  | H : match ?e with _ => _ end = Some ?k |- catchable ?k =>
      destruct e; try discriminate H; try (injection H as <-)
  | |- catchable (match ?x with _ => _ end) => destruct x
  | |- catchable (let '(_, _) := ?x in _) => destruct x
  end.

Ltac rets := repeat ret_step; try assumption; try (apply returns_catchable; assumption).

Section Returns.
Context (cfg : Config) (env : Env).

Lemma catchable_poll p : catchable (poll env p).
Proof. unfold poll, returncode, set_returncode. rets. Qed.

Lemma returns_get_video_info url deep : returns (get_video_info env url deep).
Proof.
  unfold get_video_info. apply returns_try_except.
  - unfold YoutubeDL, ydl_extract_info. rets.
  - intros [msg|msg out err|msg]; eexists; (split; [reflexivity|]); rets.
Qed.

Lemma returns_upload : returns (upload_downloads_to_drive cfg env).
Proof.
  unfold upload_downloads_to_drive. apply returns_bind; [rets|intros _].
  apply returns_try_except.
  - unfold subprocess_run. rets.
  - intros [msg|msg out err|msg]; eexists; (split; [reflexivity|]); rets.
Qed.

Lemma returns_start_record url : returns (start_record cfg env url).
Proof.
  unfold start_record. apply returns_try_except.
  - unfold subprocess_Popen. rets.
  - intros e. eexists. split; [reflexivity|]. rets.
Qed.

Lemma catchable_stop_body p v :
  catchable
    (terminate env p;;
     wait env p 5;;
     rc ← poll env p;
     match rc with
     | None => print (LDidNotTerminate v);; kill env p
     | Some _ => ret tt
     end).
Proof.
  pose proof (catchable_poll p).
  unfold terminate, kill, wait, Popen_send_signal, returncode, set_returncode. rets.
Qed.

Lemma returns_stop_current_recording : returns (stop_current_recording env).
Proof.
  unfold stop_current_recording. apply returns_bind; [rets|intros w].
  destruct (current_proc w) as [p|]; [|rets].
  apply returns_bind; [rets|intros _].
  apply returns_try_finally; [|rets].
  apply returns_try_except; [apply catchable_stop_body|].
  intros e. eexists. split; [reflexivity|]. rets.
Qed.
End Returns.

(** ** Stopping a recording *)

Lemma stop_idle env w :
  current_proc w = None -> stop_current_recording env w = (Ret tt, w).
Proof. intros H. unfold stop_current_recording. rewrite run_bind. simpl. by rewrite H. Qed.

Lemma stop_active env w p :
  current_proc w = Some p ->
  stop_current_recording env w =
  try_finally
    (try_except
       (terminate env p;;
        wait env p 5;;
        rc ← poll env p;
        match rc with
        | None => print (LDidNotTerminate (current_vid_id w));; kill env p
        | Some _ => ret tt
        end)
       (except_Exception (fun e => print (LErrorStopping (exc_str e)))))
    (print (LRecordingStopped (current_vid_id w));;
     modify (set_current_proc None);;
     modify (set_current_vid_id PNone))
    (record (Print (LTerminating (current_vid_id w))) w).
Proof.
  intros H. unfold stop_current_recording. rewrite run_bind. simpl.
  rewrite H. reflexivity.
Qed.

Lemma stop_active_clears env w p :
  current_proc w = Some p ->
  exists w',
    stop_current_recording env w = (Ret tt, w') /\
    current_proc w' = None /\ current_vid_id w' = PNone.
Proof.
  intros H. rewrite (stop_active env w p H). unfold try_finally.
  set (w0 := record _ w).
  set (body := try_except _ _).
  assert (Hbody : returns body).
  { apply returns_try_except; [apply catchable_stop_body|].
    intros e. eexists. split; [reflexivity|]. rets. }
  destruct (returns_run body w0 Hbody) as [[] ->].
  eexists. split; [reflexivity|]. split; reflexivity.
Qed.

(** C8. Whenever [stop_current_recording] finds a session, it returns with the
    handle and the tracked id both cleared, whatever the environment does to
    [terminate], [wait], [poll] and [kill]: an exception raised by any of
    them is caught, and the [finally] block runs in every case. *)
Theorem stop_clears_session env w p :
  current_proc w = Some p ->
  exists w',
    stop_current_recording env w = (Ret tt, w') /\
    current_proc w' = None /\ current_vid_id w' = PNone.
Proof. apply stop_active_clears. Qed.

(** A session whose [terminate] call fails is cleared all the same. *)
Lemma stop_clears_session_witness :
  exists w',
    stop_current_recording
      {| clock := fun _ => 0; extract_info := fun _ => Extracted None;
         spawn := fun _ => None; child_exit := fun _ => None;
         send_signal := fun _ => Some (OtherError "[Errno 1] Operation not permitted");
         wait_child := fun _ => WaitTimesOut;
         readline := fun _ => inl EmptyString;
         run_rclone := fun _ => Completed 0 EmptyString EmptyString |}
      recording = (Ret tt, w') /\
    current_proc w' = None /\ current_vid_id w' = PNone.
Proof. exact (stop_clears_session _ recording 0%nat eq_refl). Defined.

Lemma stop_keeps_throttle env : stable (keeps throttle) (stop_current_recording env).
Proof.
  unfold stop_current_recording, terminate, kill, wait, Popen_send_signal, poll,
    returncode, set_returncode.
  stab.
Qed.

Lemma stop_adds env (P : event -> Prop) :
  (forall l, P (Print l)) -> (forall p, P (Terminate p)) ->
  (forall p t, P (Wait p t)) -> (forall p, P (Kill p)) ->
  stable (adds P) (stop_current_recording env).
Proof.
  intros. unfold stop_current_recording, terminate, kill, wait, Popen_send_signal,
    poll, returncode, set_returncode.
  stab.
Qed.

Ltac run :=
  cbv [bind ret raise diverge get modify emit print ask];
  cbn [current_proc current_vid_id last_logged_state last_logged_time procs asked
       trace record next_answer set_procs set_current_proc set_current_vid_id
       set_last_logged_state set_last_logged_time fst snd].

Lemma poll_reaped env p c w :
  mjoin (procs w !! p) = Some c -> poll env p w = (Ret (Some c), w).
Proof.
  intros H. unfold poll, returncode. run. by rewrite H.
Qed.

Lemma wait_sets_returncode env p t w c w' :
  (p < length (procs w))%nat ->
  wait env p t w = (Ret c, w') -> mjoin (procs w' !! p) = Some c.
Proof.
  intros Hp. unfold wait, returncode, set_returncode. run.
  destruct (mjoin (procs w !! p)) as [c0|] eqn:Hrc.
  - intros ?; simplify_eq. exact Hrc.
  - run. destruct (wait_child env (asked w)); try done.
    intros ?; simplify_eq. run. by rewrite list_lookup_insert_eq.
Qed.

Lemma signal_keeps_length env p :
  stable (keeps (fun w => length (procs w))) (Popen_send_signal env p).
Proof.
  unfold Popen_send_signal, poll, returncode, set_returncode. stab.
  apply stable_modify; try tc_solve. intros w. unfold keeps. simpl.
  apply length_insert.
Qed.

Lemma terminate_keeps_length env p :
  stable (keeps (fun w => length (procs w))) (terminate env p).
Proof. pose proof (signal_keeps_length env p). unfold terminate. stab. Qed.

Lemma terminate_adds env p (P : event -> Prop) :
  P (Terminate p) -> stable (adds P) (terminate env p).
Proof.
  intros. unfold terminate, Popen_send_signal, poll, returncode, set_returncode. stab.
Qed.

Lemma wait_adds env p t (P : event -> Prop) :
  P (Wait p t) -> stable (adds P) (wait env p t).
Proof. intros. unfold wait, returncode, set_returncode. stab. Qed.

(** With the child in the table, [stop_current_recording] never reaches its
    [kill]: [wait] either returns, and then [poll] sees the exit code, or it
    raises, and then the rest of the [try] block is skipped. *)
Lemma stop_current_recording_never_kills env w p :
  current_proc w = Some p -> (p < length (procs w))%nat ->
  Forall (fun e => is_kill e = false) (new_events w (stop_current_recording env w).2).
Proof.
  intros Hp Hlt. apply adds_new_events. rewrite (stop_active env w p Hp).
  set (P := fun e => is_kill e = false).
  set (w0 := record _ w).
  assert (H0 : adds P w w0) by by apply adds_record.
  assert (Hlt0 : (p < length (procs w0))%nat) by done.
  clearbody w0. unfold try_finally, try_except.
  set (inner := bind (terminate env p) _).
  assert (Hinner : adds P w0 (inner w0).2).
  { unfold inner. rewrite run_bind.
    pose proof (terminate_adds env p P eq_refl w0) as A1.
    pose proof (terminate_keeps_length env p w0) as L1. unfold keeps in L1.
    destruct (terminate env p w0) as [[[]|e|] w1]; simpl in *; try done.
    rewrite run_bind.
    pose proof (wait_adds env p 5 P eq_refl w1) as A2.
    pose proof (wait_sets_returncode env p 5 w1) as R2.
    destruct (wait env p 5 w1) as [[c|e|] w2]; simpl in *;
      try (by etrans).
    rewrite run_bind, (poll_reaped env p c w2) by (apply R2; [lia|done]).
    simpl. by etrans. }
  destruct (inner w0) as [[[]|[e|c]|] w3]; simpl in *.
  - etrans; [exact H0|]. etrans; [exact Hinner|].
    exists [Print (LRecordingStopped (current_vid_id w))].
    split; [reflexivity|by repeat constructor].
  - etrans; [exact H0|]. etrans; [exact Hinner|].
    exists [Print (LErrorStopping (exc_str e));
            Print (LRecordingStopped (current_vid_id w))].
    split; [simpl; by rewrite <- app_assoc|by repeat constructor].
  - etrans; [exact H0|]. etrans; [exact Hinner|].
    exists [Print (LRecordingStopped (current_vid_id w))].
    split; [reflexivity|by repeat constructor].
  - by etrans.
Qed.

(** C1. A recorder that is still alive when the five seconds are over is not
    killed: [wait(timeout=5)] raises [TimeoutExpired], the [except] clause
    logs it, and the [kill] that follows the wait is skipped. The session is
    cleared while the child (entry 0 of the table) has not exited. *)
Theorem stop_leaves_stubborn_child_alive :
  stop_current_recording stubborn_child recording =
  (Ret tt,
   {| current_proc := None; current_vid_id := PNone;
      last_logged_state := "recording"; last_logged_time := 0;
      procs := [None]; asked := 3;
      trace := [Print (LTerminating (PStr "abc12345678"));
                Terminate 0; Wait 0 5;
                Print (LErrorStopping "Command timed out after 5 seconds");
                Print (LRecordingStopped (PStr "abc12345678"))] |}).
Proof. vm_compute. reflexivity. Qed.

(** C2. [yt_live_watcher.py] reaching its deadline in the middle of a
    recording whose child ignores [SIGTERM]: the loop ends normally, the
    upload ([Run]) is made after a stop that has given up on the child, no
    [Kill] is ever sent, and the child has still not exited at the end. *)
Theorem upload_runs_while_child_alive :
  let run := watch_loop watcher_5s stubborn_child 2 5 initial in
  run.1 = Ret tt /\
  drop 14 (trace run.2) =
    [Print LReachedMaxRun;
     Print (LTerminating (PStr "abc12345678"));
     Terminate 0; Wait 0 5;
     Print (LErrorStopping "Command timed out after 5 seconds");
     Print (LRecordingStopped (PStr "abc12345678"));
     Print (LAttemptingUpload "./downloads");
     Print (LRunningUpload (upload_cmd watcher_5s));
     Run (upload_cmd watcher_5s) 1800;
     Print LUploadComplete] /\
  forallb (fun e => negb (is_kill e)) (trace run.2) = true /\
  procs run.2 = [None].
Proof. vm_compute. repeat split; reflexivity. Qed.

(** ** The hand-off *)

Lemma new_events_app w w' evs :
  trace w' = (trace w ++ evs)%list -> new_events w w' = evs.
Proof. intros H. unfold new_events. by rewrite H, drop_app_length. Qed.

Ltac events := apply new_events_app; simpl; by rewrite <- ?app_assoc.

(** C9, as the code has it. [upload_downloads_to_drive] always returns, and
    leaves the session, the log throttle and the table of children as they
    were. What it logs depends on how the rclone call ends: a non-zero exit is
    logged with the exit code and both captured streams, a timeout with one
    fixed line, any other exception with its message. *)
Theorem upload_never_raises cfg env w :
  exists w',
    upload_downloads_to_drive cfg env w = (Ret tt, w') /\
    session w' = session w /\ throttle w' = throttle w /\ procs w' = procs w /\
    new_events w w' =
      Print (LAttemptingUpload (OUT_DIR cfg)) ::
      Print (LRunningUpload (upload_cmd cfg)) ::
      Run (upload_cmd cfg) 1800 ::
      upload_report (run_rclone env (asked w)).
Proof.
  unfold upload_downloads_to_drive, subprocess_run, try_except, upload_report. run.
  destruct (run_rclone env (asked w)) as [rc out err|out err|[msg|msg out err|msg]]; run.
  - destruct (rc =? 0); run.
    + destruct (String.eqb err EmptyString); run;
        (eexists; split; [reflexivity|]; repeat split; events).
    + eexists; split; [reflexivity|]; repeat split; events.
  - eexists; split; [reflexivity|]; repeat split; events.
  - eexists; split; [reflexivity|]; repeat split; events.
  - eexists; split; [reflexivity|]; repeat split; events.
  - eexists; split; [reflexivity|]; repeat split; events.
Qed.

(** When rclone is cut off by the timeout, none of what it had written to
    its streams reaches the log: the only line about the failure is the
    fixed one. *)
Lemma timeout_output_not_logged :
  let w' := (upload_downloads_to_drive watcher_5s rclone_hangs initial).2 in
  run_rclone rclone_hangs 0 =
    RunTimesOut "Transferred: 1.2 GiB / 4 GiB, 30%"
                "googleapi: Error 403: User rate limit exceeded" /\
  trace w' =
    [Print (LAttemptingUpload "./downloads");
     Print (LRunningUpload (upload_cmd watcher_5s));
     Run (upload_cmd watcher_5s) 1800;
     Print LUploadTimedOut] /\
  existsb (shows "googleapi: Error 403: User rate limit exceeded") (trace w') = false /\
  existsb (shows "Transferred: 1.2 GiB / 4 GiB, 30%") (trace w') = false.
Proof. vm_compute. repeat split; reflexivity. Qed.

(** ** The log throttle and the heartbeat *)





(** ** The session invariant *)

#[global] Instance pres_preorder (I : World -> Prop) : PreOrder (pres I).
Proof.
  split; [intros w H; exact H|]. intros w1 w2 w3 H12 H23 H1. exact (H23 (H12 H1)).
Qed.

Lemma stable_weaken (R R' : relation World) {A} (m : M A) :
  (forall w w', R w w' -> R' w w') -> stable R m -> stable R' m.
Proof. intros HR Hm w. apply HR, Hm. Qed.

Lemma keeps_session_paired w w' : keeps session w w' -> pres paired w w'.
Proof. unfold keeps, pres, paired, session. intros [= -> ->]. done. Qed.

Lemma run_print l w : print l w = (Ret tt, record (Print l) w).
Proof. reflexivity. Qed.

Lemma run_modify f w : modify f w = (Ret tt, f w).
Proof. reflexivity. Qed.

Lemma run_get w : get w = (Ret w, w).
Proof. reflexivity. Qed.

Lemma run_ret {A} (a : A) w : ret a w = (Ret a, w).
Proof. reflexivity. Qed.

Lemma stop_session env w :
  paired w ->
  stop_current_recording env w = (Ret tt, (stop_current_recording env w).2) /\
  session (stop_current_recording env w).2 = (None, PNone).
Proof.
  intros Hw. destruct (current_proc w) as [p|] eqn:Hp.
  - destruct (stop_active_clears env w p Hp) as (w' & -> & H1 & H2).
    unfold session. simpl. by rewrite H1, H2.
  - rewrite (stop_idle env w Hp). unfold session. simpl.
    rewrite Hp. destruct Hw as [-> _]; done.
Qed.

Lemma stop_pres_paired env : stable (pres paired) (stop_current_recording env).
Proof.
  intros w Hw. destruct (stop_session env w Hw) as [_ [= H1 H2]].
  unfold paired. by rewrite H1, H2.
Qed.

Section Invariant.
Context (cfg : Config) (env : Env).

Lemma mark_logged_keeps_session key : stable (keeps session) (mark_logged env key).
Proof. unfold mark_logged, datetime_now. stab. Qed.

Lemma log_throttled_keeps_session key l :
  stable (keeps session) (log_throttled cfg env key l).
Proof. unfold log_throttled, should_log, mark_logged, datetime_now. stab. Qed.

Lemma start_new_recording_paired fuel url title cand :
  truthy cand = true ->
  stable (pres paired) (start_new_recording cfg env fuel url title cand).
Proof.
  intros Hc w Hw. unfold start_new_recording.
  rewrite run_bind, run_print. cbv beta iota.
  set (w0 := record _ w). assert (Hw0 : paired w0) by exact Hw. clearbody w0.
  rewrite run_bind. destruct (stop_session env w0 Hw0) as [Hrun Hs1]. rewrite Hrun.
  set (w1 := (stop_current_recording env w0).2) in *. clearbody w1. cbv beta iota.
  rewrite run_bind.
  destruct (returns_run _ w1 (returns_start_record cfg env url)) as [started Hst].
  pose proof (keeps_start_record cfg env session url w1) as Hs2. unfold keeps in Hs2.
  rewrite Hst. set (w2 := (start_record cfg env url w1).2) in *. clearbody w2.
  cbv beta iota. rewrite run_bind, run_modify. cbv beta iota.
  destruct started as [p|].
  - rewrite run_bind, run_print. cbv beta iota.
    rewrite run_bind, run_modify. cbv beta iota.
    set (w3 := set_current_vid_id cand _).
    assert (Hw3 : paired w3).
    { unfold paired. simpl. split; [done|]. intros ->. done. }
    clearbody w3.
    assert (Htail : stable (keeps session)
              (mark_logged env "recording";;
               relay_progress cfg env fuel p;; print LNewline)).
    { pose proof (mark_logged_keeps_session "recording").
      pose proof (keeps_relay_progress cfg env session fuel p). stab. }
    exact (keeps_session_paired _ _ (Htail w3) Hw3).
  - rewrite run_bind, run_print. cbv beta iota. rewrite run_modify.
    unfold paired. simpl. rewrite <- Hs2 in Hs1. injection Hs1 as _ ->. done.
Qed.
End Invariant.

Section Invariant_loop.
Context (cfg : Config) (env : Env).

Lemma check_recording_paired : stable (pres paired) (check_recording cfg env).
Proof.
  pose proof (stop_pres_paired env).
  pose proof (stable_weaken _ _ _ keeps_session_paired (keeps_upload cfg env session)).
  pose proof (fun p => stable_weaken _ _ _ keeps_session_paired (keeps_poll env session p)).
  unfold check_recording, datetime_now, sleep. stab.
Qed.

Lemma scan_for_stream_paired fuel : stable (pres paired) (scan_for_stream cfg env fuel).
Proof.
  pose proof (fun url deep => stable_weaken _ _ _ keeps_session_paired
                                (keeps_get_video_info env session url deep)).
  pose proof (fun key l => stable_weaken _ _ _ keeps_session_paired
                             (log_throttled_keeps_session cfg env key l)).
  assert (forall url title cand, negb (truthy cand) = false ->
            stable (pres paired) (start_new_recording cfg env fuel url title cand)).
  { intros url title cand Hc. apply start_new_recording_paired.
    by destruct (truthy cand). }
  unfold scan_for_stream, sleep. stab.
Qed.

Lemma watch_iteration_paired fuel : stable (pres paired) (watch_iteration cfg env fuel).
Proof.
  pose proof (stop_pres_paired env).
  pose proof (stable_weaken _ _ _ keeps_session_paired (keeps_upload cfg env session)).
  pose proof (stable_weaken _ _ _ keeps_session_paired
                (keeps_deadline_reached cfg env session)).
  pose proof check_recording_paired. pose proof (scan_for_stream_paired fuel).
  unfold watch_iteration, sleep. stab.
Qed.
End Invariant_loop.

(** C10. At the head of every iteration of [watch_loop], the process handle
    and the tracked video id are [None] together or set together. *)
Theorem session_paired_at_boundary cfg env w :
  boundary cfg env w -> (current_proc w = None <-> current_vid_id w = PNone).
Proof.
  induction 1 as [|w fuel w' _ IH Hrun].
  - done.
  - pose proof (watch_iteration_paired cfg env fuel w IH) as H.
    by rewrite Hrun in H.
Qed.

(** The loop of [yt_live_watcher.py] after the iteration that has started a
    recording and left it at the deadline. *)
Lemma session_paired_at_boundary_witness :
  let w := (watch_iteration watcher_5s stubborn_child 5
              (record (Print (LMonitoring (CHANNEL_URL watcher_5s))) initial)).2 in
  current_proc w = None <-> current_vid_id w = PNone.
Proof.
  apply (session_paired_at_boundary watcher_5s stubborn_child).
  apply (boundary_next _ _
           (record (Print (LMonitoring (CHANNEL_URL watcher_5s))) initial) 5%nat);
    [apply boundary_enter|].
  vm_compute. reflexivity.
Defined.

(** ** Starting a recording *)

Lemma filter_none {A} (f : A -> bool) l :
  Forall (fun x => f x = false) l -> List.filter f l = [].
Proof. induction 1 as [|x l Hx _ IH]; simpl; [done|]. by rewrite Hx. Qed.

Lemma stop_no_handle env w : current_proc (stop_current_recording env w).2 = None.
Proof.
  destruct (current_proc w) as [p|] eqn:Hp.
  - by destruct (stop_active_clears env w p Hp) as (w' & -> & H1 & _).
  - by rewrite (stop_idle env w Hp).
Qed.

Section Starting.
Context (cfg : Config) (env : Env).

Lemma get_video_info_no_popen url deep :
  stable (adds no_popen) (get_video_info env url deep).
Proof. unfold get_video_info, YoutubeDL, ydl_extract_info. stab. Qed.

Lemma stop_no_popen : stable (adds no_popen) (stop_current_recording env).
Proof. by apply stop_adds. Qed.

Lemma sleep_no_popen ms : stable (adds no_popen) (sleep ms).
Proof. unfold sleep. stab. Qed.

Lemma log_throttled_no_popen key l : stable (adds no_popen) (log_throttled cfg env key l).
Proof. unfold log_throttled, should_log, mark_logged, datetime_now. stab. Qed.

Lemma relay_progress_no_popen fuel p :
  stable (adds no_popen) (relay_progress cfg env fuel p).
Proof.
  induction fuel as [|fuel IH]; simpl; [stab|].
  unfold poll, returncode, set_returncode, deadline_reached, datetime_now,
    stdout_readline, sleep.
  stab.
Qed.

(** What [start_record] adds to the trace: the command line, the [Popen]
    call, and one more line when the call fails. *)
Lemma start_record_events url w :
  exists started rest,
    start_record cfg env url w = (Ret started, (start_record cfg env url w).2) /\
    trace (start_record cfg env url w).2 =
      (trace w ++ Print (LStartingDownload (ytdlp_cmd cfg url)) ::
                  Popen (ytdlp_cmd cfg url) :: rest)%list /\
    Forall no_popen rest.
Proof.
  unfold start_record, try_except, subprocess_Popen, except_Exception. run.
  destruct (spawn env (asked w)) as [e|]; run.
  - exists None, [Print (LErrorStarting (exc_str e))].
    split; [done|]. split; [|by repeat constructor].
    simpl. by rewrite <- !app_assoc.
  - exists (Some (length (procs w))), [].
    split; [done|]. split; [|constructor].
    simpl. by rewrite <- !app_assoc.
Qed.

End Starting.


(** ** No run of the loop sends a kill *)

#[global] Instance calm_preorder : PreOrder calm.
Proof.
  split.
  - intros w. split; [done|]. split; [done|]. reflexivity.
  - intros w1 w2 w3 (H1 & L1 & A1) (H2 & L2 & A2).
    split; [congruence|]. split; [lia|]. by etrans.
Qed.

Lemma calm_unkilled w w' : calm w w' -> pres unkilled w w'.
Proof.
  intros (Hp & Hl & (evs & Ht & Hevs)) [Htr Hk]. split.
  - intros p Hw'. rewrite Hp in Hw'. specialize (Htr p Hw'). lia.
  - rewrite Ht. by apply Forall_app.
Qed.

Ltac stab_extra ::= apply calm_unkilled; calm_side.

Lemma stop_pres_unkilled env : stable (pres unkilled) (stop_current_recording env).
Proof.
  intros w [Htr Hk]. destruct (current_proc w) as [p|] eqn:Hp.
  - pose proof (stop_current_recording_never_kills env w p Hp (Htr p Hp)) as Hnew.
    pose proof (stop_adds env (fun _ => True) (fun _ => I) (fun _ => I)
                  (fun _ _ => I) (fun _ => I) w) as Hadd.
    apply adds_trace in Hadd. split.
    + intros q Hq. by rewrite stop_no_handle in Hq.
    + rewrite Hadd. by apply Forall_app.
  - by rewrite (stop_idle env w Hp).
Qed.

Section Unkilled.
Context (cfg : Config) (env : Env).

Lemma calm_poll p : stable calm (poll env p).
Proof. unfold poll, returncode, set_returncode. stab. Qed.

Lemma calm_get_video_info url deep : stable calm (get_video_info env url deep).
Proof. unfold get_video_info, YoutubeDL, ydl_extract_info. stab. Qed.

Lemma calm_upload : stable calm (upload_downloads_to_drive cfg env).
Proof. unfold upload_downloads_to_drive, subprocess_run. stab. Qed.

Lemma calm_start_record url : stable calm (start_record cfg env url).
Proof. unfold start_record, subprocess_Popen. stab. Qed.

Lemma calm_deadline_reached : stable calm (deadline_reached cfg env).
Proof. unfold deadline_reached, datetime_now. stab. Qed.

Lemma calm_log_throttled key l : stable calm (log_throttled cfg env key l).
Proof. unfold log_throttled, should_log, mark_logged, datetime_now. stab. Qed.

Lemma calm_relay_progress fuel p : stable calm (relay_progress cfg env fuel p).
Proof.
  induction fuel as [|fuel IH]; simpl; [stab|].
  pose proof calm_deadline_reached. pose proof (calm_poll p).
  unfold stdout_readline, sleep. stab.
Qed.

Lemma start_record_in_table url w p w' :
  start_record cfg env url w = (Ret (Some p), w') -> (p < length (procs w'))%nat.
Proof.
  unfold start_record, try_except, subprocess_Popen, except_Exception. run.
  destruct (spawn env (asked w)); run; intros ?; simplify_eq.
  simpl. rewrite length_app. simpl. lia.
Qed.

Lemma start_new_recording_unkilled fuel url title cand :
  stable (pres unkilled) (start_new_recording cfg env fuel url title cand).
Proof.
  intros w Hw. unfold start_new_recording.
  rewrite run_bind, run_print. cbv beta iota.
  set (w0 := record _ w).
  assert (Hw0 : unkilled w0).
  { destruct Hw as [Htr Hk]. split; [exact Htr|]. simpl.
    apply Forall_app. split; [done|]. by repeat constructor. }
  clearbody w0. rewrite run_bind.
  destruct (returns_run _ w0 (returns_stop_current_recording env)) as [[] Hstop].
  pose proof (stop_pres_unkilled env w0 Hw0) as Hw1.
  pose proof (stop_no_handle env w0) as Hnone.
  rewrite Hstop. set (w1 := (stop_current_recording env w0).2) in *. clearbody w1.
  cbv beta iota. rewrite run_bind.
  destruct (returns_run _ w1 (returns_start_record cfg env url)) as [started Hst].
  pose proof (calm_unkilled _ _ (calm_start_record url w1) Hw1) as Hw2.
  pose proof (start_record_in_table url w1) as Hin.
  rewrite Hst. set (w2 := (start_record cfg env url w1).2) in *. clearbody w2.
  cbv beta iota. rewrite run_bind, run_modify. cbv beta iota.
  set (w3 := set_current_proc started w2).
  assert (Hw3 : unkilled w3).
  { destruct Hw2 as [_ Hk]. split; [|exact Hk].
    intros p Hp. simpl in Hp. subst started. simpl. exact (Hin p w2 Hst). }
  clearbody w3. revert Hw3. apply calm_unkilled.
  set (k := match started with Some _ => _ | None => _ end).
  assert (Hk : stable calm k).
  { pose proof (calm_relay_progress fuel).
    unfold k, mark_logged, datetime_now. stab. }
  apply Hk.
Qed.

Lemma check_recording_unkilled : stable (pres unkilled) (check_recording cfg env).
Proof.
  pose proof (stop_pres_unkilled env).
  pose proof (stable_weaken _ _ _ calm_unkilled calm_upload).
  pose proof (fun p => stable_weaken _ _ _ calm_unkilled (calm_poll p)).
  unfold check_recording, datetime_now, sleep. stab.
Qed.

Lemma scan_for_stream_unkilled fuel : stable (pres unkilled) (scan_for_stream cfg env fuel).
Proof.
  pose proof (fun url deep => stable_weaken _ _ _ calm_unkilled (calm_get_video_info url deep)).
  pose proof (fun key l => stable_weaken _ _ _ calm_unkilled (calm_log_throttled key l)).
  pose proof (start_new_recording_unkilled fuel).
  unfold scan_for_stream, sleep. stab.
Qed.

Lemma watch_iteration_unkilled fuel : stable (pres unkilled) (watch_iteration cfg env fuel).
Proof.
  pose proof (stop_pres_unkilled env).
  pose proof (stable_weaken _ _ _ calm_unkilled calm_upload).
  pose proof (stable_weaken _ _ _ calm_unkilled calm_deadline_reached).
  pose proof check_recording_unkilled. pose proof (scan_for_stream_unkilled fuel).
  unfold watch_iteration, sleep. stab.
Qed.

Lemma boundary_unkilled w : boundary cfg env w -> unkilled w.
Proof.
  induction 1 as [|w fuel w' _ IH Hrun].
  - split; [by intros p|]. by repeat constructor.
  - pose proof (watch_iteration_unkilled fuel w IH) as H. by rewrite Hrun in H.
Qed.

(** X15. Whatever the environment does, no iteration of [watch_loop] ever
    calls [kill]: the branch of [stop_current_recording] that holds it is
    dead. *)
Lemma watch_loop_never_kills w fuel :
  boundary cfg env w ->
  Forall no_kill (trace (watch_iteration cfg env fuel w).2).
Proof.
  intros Hw. by destruct (watch_iteration_unkilled fuel w (boundary_unkilled w Hw)).
Qed.
End Unkilled.

(** [handle_sigint] run in the middle of a recording whose child ignores
    [SIGTERM]: the upload is made, the process then exits, and the child has
    been neither killed nor seen to exit. *)
Lemma sigint_uploads_while_child_alive :
  let run := handle_sigint watcher_5s stubborn_child recording in
  run.1 = Raise (SystemExit 0) /\
  trace run.2 =
    [Print LReceivedSigint;
     Print (LTerminating (PStr "abc12345678"));
     Terminate 0; Wait 0 5;
     Print (LErrorStopping "Command timed out after 5 seconds");
     Print (LRecordingStopped (PStr "abc12345678"));
     Print (LAttemptingUpload "./downloads");
     Print (LRunningUpload (upload_cmd watcher_5s));
     Run (upload_cmd watcher_5s) 1800;
     Print LUploadComplete] /\
  procs run.2 = [None].
Proof. vm_compute. repeat split; reflexivity. Qed.

(** ** When the upload is made *)

Lemma poll_keeps_trace env p : stable (keeps trace) (poll env p).
Proof. unfold poll, returncode, set_returncode. stab. Qed.

Lemma new_events_same w w' : trace w' = trace w -> new_events w w' = [].
Proof. intros H. unfold new_events. rewrite H. apply drop_all. Qed.

(** X16. In the block that watches the recorder, an upload is made only
    after [poll] has reported the exit code of the child. *)
Lemma upload_follows_seen_exit cfg env w :
  List.filter is_run (new_events w (check_recording cfg env w).2) <> [] ->
  exists p c, current_proc w = Some p /\ (poll env p w).1 = Ret (Some c).
Proof.
  unfold check_recording. rewrite run_bind, run_get. cbv beta iota.
  destruct (current_proc w) as [p|] eqn:Hp.
  - rewrite run_bind. pose proof (poll_keeps_trace env p w) as Kt. unfold keeps in Kt.
    destruct (poll env p w) as [[[c|]|e|] w1] eqn:Hpoll; simpl in Kt |- *.
    + intros _. exists p, c. by rewrite Hpoll.
    + intros H. exfalso. apply H. apply filter_none, (adds_new_events no_run).
      etrans; [by apply adds_same_trace|].
      set (k := bind (datetime_now env) _).
      assert (Hk : stable (adds no_run) k).
      { unfold k, datetime_now, sleep. stab. }
      apply Hk.
    + intros H. by rewrite new_events_same in H.
    + intros H. by rewrite new_events_same in H.
  - rewrite run_ret. simpl. intros H. by rewrite new_events_same in H.
Qed.

(** * Further properties of the two scripts *)

(** ** Programs that never raise [SystemExit] *)

Lemma catchable_mild {A} (m : M A) : catchable m -> mild m.
Proof. intros H w. specialize (H w). by destruct (m w).1 as [|[]|]. Qed.

Lemma returns_mild {A} (m : M A) : returns m -> mild m.
Proof. intros H. by apply catchable_mild, returns_catchable. Qed.

Lemma mild_diverge {A} : mild (@diverge A).
Proof. by intros w. Qed.

Lemma mild_bind {A B} (m : M A) (f : A -> M B) :
  mild m -> (forall a, mild (f a)) -> mild (bind m f).
Proof.
  intros Hm Hf w. rewrite run_bind. specialize (Hm w).
  destruct (m w) as [[a|[e|c]|] w1]; simpl in *; try done. apply Hf.
Qed.

Lemma mild_try_except {A} (body : M A) h :
  mild body -> (forall e k, h e = Some k -> mild k) -> mild (try_except body h).
Proof.
  intros Hb Hh w. unfold try_except. specialize (Hb w).
  destruct (body w) as [[a|[e|c]|] w1]; simpl in *; try done.
  destruct (h (Exc e)) as [k|] eqn:He; [|done]. by apply (Hh _ _ He).
Qed.

Ltac mild_step :=
  lazymatch goal with
  | |- mild diverge => apply mild_diverge
  | |- mild (bind _ _) => apply mild_bind; [|intros ?]
  | |- mild (try_except _ _) => apply mild_try_except; [|intros ? ? ?]
  | H : except_Exception _ ?e = Some ?k |- mild ?k =>
      destruct e; simpl in H; [injection H as <-|discriminate H]
  | |- mild (match ?x with _ => _ end) => destruct x
  | |- mild _ => first [ assumption
                       | solve [auto]
                       | apply catchable_mild; solve [rets]
                       | apply returns_mild; solve [rets] ]
  end.

Ltac milds := repeat mild_step.

Section Mild.
Context (cfg : Config) (env : Env).

Lemma returns_deadline_reached : returns (deadline_reached cfg env).
Proof. unfold deadline_reached, datetime_now. rets. Qed.

Lemma returns_log_throttled key l : returns (log_throttled cfg env key l).
Proof. unfold log_throttled, should_log, mark_logged, datetime_now. rets. Qed.

Lemma mild_relay_progress fuel p : mild (relay_progress cfg env fuel p).
Proof.
  induction fuel as [|fuel IH]; simpl; [apply mild_diverge|].
  pose proof (catchable_mild _ (catchable_poll env p)).
  pose proof (returns_mild _ returns_deadline_reached).
  unfold stdout_readline, sleep. milds.
Qed.

Lemma mild_start_new_recording fuel url title cand :
  mild (start_new_recording cfg env fuel url title cand).
Proof.
  pose proof (returns_mild _ (returns_stop_current_recording env)).
  pose proof (returns_mild _ (returns_start_record cfg env url)).
  pose proof (mild_relay_progress fuel).
  unfold start_new_recording, mark_logged, datetime_now. milds.
Qed.

Lemma mild_check_recording : mild (check_recording cfg env).
Proof.
  pose proof (returns_mild _ (returns_stop_current_recording env)).
  pose proof (returns_mild _ (returns_upload cfg env)).
  pose proof (fun p => catchable_mild _ (catchable_poll env p)).
  unfold check_recording, datetime_now, sleep. milds.
Qed.

Lemma mild_scan_for_stream fuel : mild (scan_for_stream cfg env fuel).
Proof.
  pose proof (fun url deep => returns_mild _ (returns_get_video_info env url deep)).
  pose proof (fun key l => returns_mild _ (returns_log_throttled key l)).
  pose proof (mild_start_new_recording fuel).
  unfold scan_for_stream, sleep. milds.
Qed.
End Mild.

(** ** What an iteration answers *)

Lemma run_deadline_reached cfg env w :
  deadline_reached cfg env w =
  match which cfg, end_time cfg with
  | YtLiveWatcher, Some e => (Ret (e <=? clock env (asked w)), next_answer w)
  | _, _ => (Ret false, w)
  end.
Proof. unfold deadline_reached, datetime_now. by destruct (which cfg), (end_time cfg). Qed.

(** What a program answers when it returns. *)
Lemma answers_bind {A B} (P : B -> Prop) (m : M A) (f : A -> M B) :
  (forall a w, match (f a w).1 with Ret b => P b | _ => True end) ->
  forall w, match (bind m f w).1 with Ret b => P b | _ => True end.
Proof. intros Hf w. rewrite run_bind. destruct (m w) as [[a| |] w1]; try done. apply Hf. Qed.


Lemma try_body_answers_next cfg env fuel w a w' :
  bind (check_recording cfg env)
    (fun done => if done then ret Next else scan_for_stream cfg env fuel;; ret Next) w
  = (Ret a, w') -> a = Next.
Proof.
  intros H.
  pose proof (answers_bind (fun b => b = Next) (check_recording cfg env)
    (fun done => if done then ret Next else scan_for_stream cfg env fuel;; ret Next)) as Hb.
  assert (Hf : forall (a : bool) (w0 : World),
    match (((if a then ret Next else scan_for_stream cfg env fuel;; ret Next) : M flow) w0).1
    with Ret b => b = Next | _ => True end).
  { intros [] w0; [done|]. apply (answers_bind (fun b => b = Next)). done. }
  specialize (Hb Hf w).
  by rewrite H in Hb.
Qed.

Lemma mild_try_body cfg env fuel :
  mild (bind (check_recording cfg env)
          (fun done => if done then ret Next else scan_for_stream cfg env fuel;; ret Next)).
Proof.
  pose proof (mild_check_recording cfg env). pose proof (mild_scan_for_stream cfg env fuel).
  milds.
Qed.



(** ** A poll interval that [time.sleep] refuses *)

Lemma never_returns_bind_l {A B} (m : M A) (f : A -> M B) :
  never_returns m -> never_returns (bind m f).
Proof.
  intros Hm w b. rewrite run_bind. specialize (Hm w).
  destruct (m w) as [[a| |] w1]; simpl in *; try done. by destruct (Hm a).
Qed.

Lemma never_returns_bind_r {A B} (m : M A) (f : A -> M B) :
  (forall a, never_returns (f a)) -> never_returns (bind m f).
Proof.
  intros Hf w b. rewrite run_bind. destruct (m w) as [[a| |] w1]; try done. apply Hf.
Qed.

Lemma never_returns_sleep ms e : sleep_refusal ms = Some e -> never_returns (sleep ms).
Proof. intros H w a. by rewrite (sleep_refused ms e w H). Qed.

Lemma scan_for_stream_never_returns cfg env fuel e :
  sleep_refusal (CHECK_INTERVAL cfg * 1000) = Some e ->
  never_returns (scan_for_stream cfg env fuel).
Proof.
  intros He. pose proof (never_returns_sleep _ _ He) as Hs.
  unfold scan_for_stream. apply never_returns_bind_r. intros channel_info.
  cbv zeta. destruct (negb _).
  - by apply never_returns_bind_r.
  - apply never_returns_bind_r. intros final. by apply never_returns_bind_r.
Qed.

Lemma check_recording_answers_false cfg env w e :
  sleep_refusal (CHECK_INTERVAL cfg * 1000) = Some e ->
  (check_recording cfg env w).1 <> Ret true.
Proof.
  intros He.
  assert (Hb : match (check_recording cfg env w).1 with Ret b => b = false | _ => True end).
  { unfold check_recording. apply answers_bind. intros w0 ?.
    destruct (current_proc w0) as [p|]; [|done].
    apply answers_bind. intros [c|] ?.
    - do 4 (apply answers_bind; intros ? ?). done.
    - do 2 (apply answers_bind; intros ? ?).
      pose proof (never_returns_bind_l (sleep (CHECK_INTERVAL cfg * 1000))
                    (fun _ => ret true) (never_returns_sleep _ _ He)) as Hn.
      match goal with |- match (?m ?w).1 with _ => _ end =>
        specialize (Hn w); destruct (m w).1 as [b| |];
        [by destruct (Hn b)|done|done] end. }
  intros Ht. by rewrite Ht in Hb.
Qed.

(** X2. A [CHECK_INTERVAL] that [time.sleep] refuses, negative or of
    9223372037 seconds and more, stops the program: before the deadline, no
    iteration of the loop completes. Either it stays in the inner loop that
    relays the recorder's output, or [time.sleep] raises: inside the [try]
    block first, and then again in the handler, whose own sleep of twice the
    interval is outside any [try]. What leaves [watch_loop] is the
    exception of that second call: the [ValueError], or the [OverflowError]
    when twice the interval does not convert. *)
Theorem refused_interval_ends_loop cfg env fuel w :
  CHECK_INTERVAL cfg < 0 \/ 9223372037 <= CHECK_INTERVAL cfg ->
  (deadline_reached cfg env w).1 = Ret false ->
  (exists e, sleep_refusal (CHECK_INTERVAL cfg * 2 * 1000) = Some e /\
             (watch_iteration cfg env fuel w).1 = Raise (Exc e)) \/
  (watch_iteration cfg env fuel w).1 = Diverge.
Proof.
  intros Hbad Hd.
  destruct (sleep_refusal_Some (CHECK_INTERVAL cfg * 1000) ltac:(lia)) as [e1 He1].
  destruct (sleep_refusal_Some (CHECK_INTERVAL cfg * 2 * 1000) ltac:(lia)) as [e2 He2].
  unfold watch_iteration. rewrite run_bind.
  destruct (deadline_reached cfg env w) as [late w1]. simpl in Hd. subst late.
  cbv beta iota. unfold try_except.
  pose proof (mild_try_body cfg env fuel w1) as Hm.
  assert (Hn : forall a, (bind (check_recording cfg env)
     (fun done => if done then ret Next else scan_for_stream cfg env fuel;; ret Next) w1).1
     <> Ret a).
  { intros a. rewrite run_bind.
    pose proof (check_recording_answers_false cfg env w1 e1 He1) as Hc.
    destruct (check_recording cfg env w1) as [[[]| |] w2]; try done.
    apply never_returns_bind_l. by apply (scan_for_stream_never_returns _ _ _ e1). }
  destruct (bind (check_recording cfg env) _ w1) as [[a|[e|c]|] w2]; simpl in *.
  - by destruct (Hn a).
  - left. exists e2. split; [done|]. rewrite run_bind, run_print. cbv beta iota.
    by rewrite run_bind, (sleep_refused _ e2).
  - done.
  - by right.
Qed.

Lemma refused_interval_ends_loop_witness :
  (exists e, sleep_refusal (CHECK_INTERVAL negative_interval * 2 * 1000) = Some e /\
             (watch_iteration negative_interval live_other 5 initial).1 = Raise (Exc e)) \/
  (watch_iteration negative_interval live_other 5 initial).1 = Diverge.
Proof.
  apply (refused_interval_ends_loop negative_interval live_other 5 initial);
    [left; simpl; lia|reflexivity].
Defined.

(** ** Counting calls *)

Lemma emits_refl f w : emits f [] w w.
Proof. exists []. by rewrite app_nil_r. Qed.

Lemma emits_trans f l1 l2 w1 w2 w3 :
  emits f l1 w1 w2 -> emits f l2 w2 w3 -> emits f (l1 ++ l2)%list w1 w3.
Proof.
  intros (e1 & H1 & F1) (e2 & H2 & F2). exists (e1 ++ e2)%list.
  rewrite H2, H1, <- app_assoc, List.filter_app, F1, F2. done.
Qed.

Lemma adds_emits f w w' : adds (fun e => f e = false) w w' -> emits f [] w w'.
Proof. intros (evs & H & F). exists evs. split; [done|]. by apply filter_none. Qed.

Lemma emits_new_events f l w w' : emits f l w w' -> List.filter f (new_events w w') = l.
Proof. intros (evs & H & F). by rewrite (new_events_app _ _ _ H). Qed.

(** What the parts of the loop add to the trace, for a property [P] of
    events that holds of the calls each part can make. *)
Section Adds.
Context (cfg : Config) (env : Env) (P : event -> Prop).
Context (HPrint : forall l, P (Print l)).

Lemma adds_sleep ms : (forall t, P (Sleep t)) -> stable (adds P) (sleep ms).
Proof. intros. unfold sleep. stab. Qed.

Lemma adds_poll p : stable (adds P) (poll env p).
Proof. unfold poll, returncode, set_returncode. stab. Qed.

Lemma adds_deadline_reached : stable (adds P) (deadline_reached cfg env).
Proof. unfold deadline_reached, datetime_now. stab. Qed.

Lemma adds_log_throttled key l : stable (adds P) (log_throttled cfg env key l).
Proof. unfold log_throttled, should_log, mark_logged, datetime_now. stab. Qed.

Lemma adds_get_video_info url deep :
  (forall u b, P (ExtractInfo u b)) -> stable (adds P) (get_video_info env url deep).
Proof. intros. unfold get_video_info, YoutubeDL, ydl_extract_info. stab. Qed.

Lemma adds_upload :
  (forall c t, P (Run c t)) -> stable (adds P) (upload_downloads_to_drive cfg env).
Proof. intros. unfold upload_downloads_to_drive, subprocess_run. stab. Qed.

Lemma adds_start_record url :
  (forall c, P (Popen c)) -> stable (adds P) (start_record cfg env url).
Proof. intros. unfold start_record, subprocess_Popen. stab. Qed.

Lemma adds_relay_progress fuel p :
  (forall q, P (Readline q)) -> (forall t, P (Sleep t)) ->
  stable (adds P) (relay_progress cfg env fuel p).
Proof.
  intros. induction fuel as [|fuel IH]; simpl; [stab|].
  pose proof adds_deadline_reached. pose proof (adds_poll p).
  unfold stdout_readline, sleep. stab.
Qed.

Lemma adds_start_new_recording fuel url title cand :
  (forall p, P (Terminate p)) -> (forall p t, P (Wait p t)) -> (forall p, P (Kill p)) ->
  (forall c, P (Popen c)) -> (forall q, P (Readline q)) -> (forall t, P (Sleep t)) ->
  stable (adds P) (start_new_recording cfg env fuel url title cand).
Proof.
  intros. pose proof (stop_adds env P). pose proof (adds_start_record url).
  pose proof (adds_relay_progress fuel).
  unfold start_new_recording, mark_logged, datetime_now. stab.
Qed.
End Adds.

(** ** The two probes of an iteration *)

Lemma get_video_info_probe env url deep w :
  emits is_extract (probe_calls (extract_info env (asked w)) url (negb deep))
    w (get_video_info env url deep w).2.
Proof.
  unfold get_video_info, try_except, YoutubeDL, ydl_extract_info. run.
  destruct (extract_info env (asked w)) as [info|e|e]; run.
  - destruct (info_present info) as [d|]; run.
    + repeat case_match; simplify_eq; run;
        (eexists; split; [simpl; rewrite <- ?app_assoc; reflexivity|done]).
    + eexists; split; [simpl; rewrite <- ?app_assoc; reflexivity|done].
  - destruct e; repeat case_match; simplify_eq; run;
      (eexists; split; [simpl; rewrite <- ?app_assoc; reflexivity|done]).
  - destruct e; repeat case_match; simplify_eq; run;
      (exists []; split; [simpl; by rewrite app_nil_r|done]).
Qed.

Lemma scan_decision_no_extract cfg env fuel url title cand (final : dict) :
  stable (adds no_extract)
    (bind (if py_eq (dict_get final "status") (PStr "live") then
             w ← get;
             if negb (py_eq cand (current_vid_id w)) then
               start_new_recording cfg env fuel url title cand
             else ret tt
           else
             log_throttled cfg env ("waiting_" +:+ py_str cand)
               (msg_map (dict_get final "status") title (dict_get final "errmsg")))
          (fun _ => sleep (CHECK_INTERVAL cfg * 1000))).
Proof.
  assert (stable (adds no_extract) (start_new_recording cfg env fuel url title cand))
    by by apply adds_start_new_recording.
  assert (forall key l, stable (adds no_extract) (log_throttled cfg env key l))
    by (intros; by apply adds_log_throttled).
  assert (forall ms, stable (adds no_extract) (sleep ms)) by (intros; by apply adds_sleep).
  stab.
Qed.

(** X3. The probes of one scan. The channel page is asked first, with
    [extract_flat] set. When the answer of that probe carries a video id,
    the watch page of this id is asked next, in full; otherwise nothing more
    is asked. A probe whose [YoutubeDL] object cannot be made asks nothing.
    No other extraction is made in the iteration, whatever the second answer
    leads to. *)
Theorem scan_probes_channel_then_video cfg env fuel w channel_info w1 :
  get_video_info env (CHANNEL_URL cfg) false w = (Ret channel_info, w1) ->
  let cand := dict_get channel_info "video_id" in
  List.filter is_extract (new_events w (scan_for_stream cfg env fuel w).2) =
    (probe_calls (extract_info env (asked w)) (CHANNEL_URL cfg) true ++
     if truthy cand
     then probe_calls (extract_info env (asked w1)) (watch_url cand) false
     else [])%list.
Proof.
  intros H1 cand. apply emits_new_events.
  pose proof (get_video_info_probe env (CHANNEL_URL cfg) false w) as E1.
  rewrite H1 in E1. simpl in E1.
  unfold scan_for_stream. rewrite run_bind, H1. cbv beta iota zeta. fold cand.
  destruct (truthy cand); cbn [negb]; cbv beta iota.
  - apply (emits_trans _ _ _ _ _ _ E1).
    pose proof (get_video_info_probe env (watch_url cand) true w1) as E2.
    unfold watch_url in *. rewrite run_bind.
    destruct (returns_run _ w1 (returns_get_video_info env
                ("https://www.youtube.com/watch?v=" +:+ py_str cand) true)) as [final Hf].
    rewrite Hf in *. cbv beta iota.
    set (w2 := (get_video_info env _ true w1).2) in *. clearbody w2.
    rewrite <- (app_nil_r (probe_calls _ _ _)).
    apply (emits_trans _ _ [] _ _ _ E2). apply adds_emits.
    apply (scan_decision_no_extract cfg env fuel _ _ cand final w2).
  - rewrite <- (app_nil_r (probe_calls _ _ _ ++ [])%list), app_nil_r.
    apply (emits_trans _ _ [] _ _ _ E1). apply adds_emits.
    assert (forall key l, stable (adds no_extract) (log_throttled cfg env key l))
      by (intros; by apply adds_log_throttled).
    assert (forall ms, stable (adds no_extract) (sleep ms)) by (intros; by apply adds_sleep).
    assert (Hs : stable (adds no_extract)
      (log_throttled cfg env "no_video" LNoVideoFound;; sleep (CHECK_INTERVAL cfg * 1000)))
      by stab.
    apply Hs.
Qed.

Lemma scan_probes_channel_then_video_witness :
  List.filter is_extract
    (new_events initial (scan_for_stream auto_live live_other 5 initial).2) =
  [ExtractInfo (CHANNEL_URL auto_live) true;
   ExtractInfo (watch_url (PStr "xyz98765432")) false].
Proof.
  exact (scan_probes_channel_then_video auto_live live_other 5 initial
           live_other_info _ eq_refl).
Defined.

(** ** Uploads and recorders *)

Lemma stable_iterate (R : relation World) `{!PreOrder R} cfg env ticks fuel :
  (forall fuel, stable R (watch_iteration cfg env fuel)) ->
  stable R (iterate cfg env ticks fuel).
Proof. intros H. induction ticks as [|ticks IH]; simpl; stab. Qed.

(** The facts of [Section Adds] that hold of [P], put among the hypotheses. *)
Ltac adds_fact H lem := try (assert H by (intros; by apply lem)).
Ltac adds_facts cfg env P :=
  adds_fact (stable (adds P) (stop_current_recording env)) stop_adds;
  adds_fact (forall p, stable (adds P) (poll env p)) adds_poll;
  adds_fact (stable (adds P) (deadline_reached cfg env)) adds_deadline_reached;
  adds_fact (forall ms, stable (adds P) (sleep ms)) adds_sleep;
  adds_fact (forall key l, stable (adds P) (log_throttled cfg env key l)) adds_log_throttled;
  adds_fact (forall url deep, stable (adds P) (get_video_info env url deep))
    adds_get_video_info;
  adds_fact (stable (adds P) (upload_downloads_to_drive cfg env)) adds_upload;
  adds_fact (forall url, stable (adds P) (start_record cfg env url)) adds_start_record;
  adds_fact (forall fuel p, stable (adds P) (relay_progress cfg env fuel p))
    adds_relay_progress;
  adds_fact (forall fuel url title cand,
               stable (adds P) (start_new_recording cfg env fuel url title cand))
    adds_start_new_recording.

Lemma scan_for_stream_no_run cfg env fuel :
  stable (adds no_run) (scan_for_stream cfg env fuel).
Proof. adds_facts cfg env no_run. unfold scan_for_stream. stab. Qed.

Section No_upload.
Context (cfg : Config) (env : Env) (Hauto : which cfg = AutoYtLive).

Lemma check_recording_no_run : stable (adds no_run) (check_recording cfg env).
Proof.
  adds_facts cfg env no_run.
  unfold check_recording, datetime_now. rewrite Hauto. stab.
Qed.

Lemma watch_iteration_no_run fuel : stable (adds no_run) (watch_iteration cfg env fuel).
Proof.
  intros w. unfold watch_iteration. rewrite run_bind, run_deadline_reached, Hauto.
  cbv beta iota.
  pose proof check_recording_no_run. pose proof (scan_for_stream_no_run cfg env fuel).
  adds_facts cfg env no_run.
  match goal with |- adds _ w (?m w).2 => assert (Hm : stable (adds no_run) m) end.
  { stab. }
  apply Hm.
Qed.
End No_upload.

(** X4. [auto_yt_live.py] never calls rclone: however long its loop runs and
    whatever the environment answers, no [subprocess.run] is among the calls
    it makes. *)
Theorem auto_yt_live_never_uploads cfg env ticks fuel w :
  which cfg = AutoYtLive ->
  Forall no_run (new_events w (watch_loop cfg env ticks fuel w).2).
Proof.
  intros Hauto. apply adds_new_events.
  assert (H : stable (adds no_run) (watch_loop cfg env ticks fuel)).
  { pose proof (stable_iterate (adds no_run) cfg env ticks fuel
                  (watch_iteration_no_run cfg env Hauto)).
    unfold watch_loop. stab. }
  apply H.
Qed.

Lemma auto_yt_live_never_uploads_witness :
  Forall no_run (new_events initial (watch_loop auto_live live_other 3 20 initial).2).
Proof. apply (auto_yt_live_never_uploads auto_live live_other 3 20 initial). reflexivity. Defined.

(** *** At most one of each in an iteration *)

Lemma adds_at_most_one f w w' : adds (fun e => f e = false) w w' -> at_most_one f w w'.
Proof.
  intros (evs & H & F). exists evs. split; [done|]. rewrite (filter_none _ _ F). simpl. lia.
Qed.

Lemma at_most_one_adds f w1 w2 w3 :
  at_most_one f w1 w2 -> adds (fun e => f e = false) w2 w3 -> at_most_one f w1 w3.
Proof.
  intros (e1 & H1 & L1) (e2 & H2 & F2). exists (e1 ++ e2)%list.
  rewrite H2, H1, <- app_assoc, List.filter_app, (filter_none _ _ F2), app_nil_r. done.
Qed.

Lemma adds_at_most_one_trans f w1 w2 w3 :
  adds (fun e => f e = false) w1 w2 -> at_most_one f w2 w3 -> at_most_one f w1 w3.
Proof.
  intros (e1 & H1 & F1) (e2 & H2 & L2). exists (e1 ++ e2)%list.
  rewrite H2, H1, <- app_assoc, List.filter_app, (filter_none _ _ F1). done.
Qed.

(** A program of which one step may make the call, and no other does. *)
Lemma at_most_one_bind_l {A B} f (m : M A) (k : A -> M B) :
  stable (at_most_one f) m -> (forall a, stable (adds (fun e => f e = false)) (k a)) ->
  stable (at_most_one f) (bind m k).
Proof.
  intros Hm Hk w. rewrite run_bind. specialize (Hm w).
  destruct (m w) as [[a| |] w1]; simpl in *; try done.
  eapply at_most_one_adds; [done|apply Hk].
Qed.

Lemma at_most_one_bind_r {A B} f (m : M A) (k : A -> M B) :
  stable (adds (fun e => f e = false)) m -> (forall a, stable (at_most_one f) (k a)) ->
  stable (at_most_one f) (bind m k).
Proof.
  intros Hm Hk w. rewrite run_bind. specialize (Hm w).
  destruct (m w) as [[a| |] w1]; simpl in *; try (by apply adds_at_most_one).
  eapply adds_at_most_one_trans; [done|apply Hk].
Qed.

Lemma at_most_one_try_except {A} f (body : M A) h :
  stable (at_most_one f) body ->
  (forall e k, h e = Some k -> stable (adds (fun e => f e = false)) k) ->
  stable (at_most_one f) (try_except body h).
Proof.
  intros Hb Hh w. unfold try_except. specialize (Hb w).
  destruct (body w) as [[a|e|] w1]; simpl in *; try done.
  destruct (h e) as [k|] eqn:Hk; [|done].
  eapply at_most_one_adds; [done|]. by apply (Hh e k).
Qed.

Lemma stable_adds_at_most_one {A} f (m : M A) :
  stable (adds (fun e => f e = false)) m -> stable (at_most_one f) m.
Proof. intros H w. apply adds_at_most_one, H. Qed.

Lemma upload_emits_run cfg env w :
  emits is_run [Run (upload_cmd cfg) 1800] w (upload_downloads_to_drive cfg env w).2.
Proof.
  unfold upload_downloads_to_drive, try_except, subprocess_run. run.
  destruct (run_rclone env (asked w)) as [rc out err|out err|e]; run.
  - destruct (rc =? 0); [destruct (negb _)|]; run;
      (eexists; split; [simpl; rewrite <- ?app_assoc; reflexivity|done]).
  - eexists; split; [simpl; rewrite <- ?app_assoc; reflexivity|done].
  - destruct e; run; (eexists; split; [simpl; rewrite <- ?app_assoc; reflexivity|done]).
Qed.

Section One_each.
Context (cfg : Config) (env : Env).

Lemma start_record_one_popen url : stable (at_most_one is_popen) (start_record cfg env url).
Proof.
  intros w. destruct (start_record_events cfg env url w) as (st & rest & _ & Htr & Hrest).
  eexists. split; [exact Htr|]. simpl. rewrite (filter_none _ _ Hrest). simpl. lia.
Qed.

Lemma start_new_recording_one_popen fuel url title cand :
  stable (at_most_one is_popen) (start_new_recording cfg env fuel url title cand).
Proof.
  unfold start_new_recording.
  apply at_most_one_bind_r; [stab|intros _].
  apply at_most_one_bind_r; [apply stop_no_popen|intros _].
  apply at_most_one_bind_l; [apply start_record_one_popen|intros started].
  pose proof (relay_progress_no_popen cfg env fuel).
  unfold mark_logged, datetime_now. stab.
Qed.

Lemma scan_for_stream_one_popen fuel : stable (at_most_one is_popen) (scan_for_stream cfg env fuel).
Proof.
  unfold scan_for_stream.
  apply at_most_one_bind_r; [apply get_video_info_no_popen|intros channel_info].
  cbv zeta. destruct (negb _).
  { apply stable_adds_at_most_one.
    pose proof (log_throttled_no_popen cfg env). pose proof sleep_no_popen. stab. }
  apply at_most_one_bind_r; [apply get_video_info_no_popen|intros final].
  apply at_most_one_bind_l; [|intros _; apply sleep_no_popen].
  destruct (py_eq _ _).
  - apply at_most_one_bind_r; [stab|intros w0]. destruct (negb _).
    + apply start_new_recording_one_popen.
    + apply stable_adds_at_most_one. stab.
  - apply stable_adds_at_most_one, log_throttled_no_popen.
Qed.

Lemma check_recording_no_popen : stable (adds no_popen) (check_recording cfg env).
Proof.
  adds_facts cfg env no_popen. unfold check_recording, datetime_now. stab.
Qed.

Lemma watch_iteration_one_popen fuel :
  stable (at_most_one is_popen) (watch_iteration cfg env fuel).
Proof.
  unfold watch_iteration.
  apply at_most_one_bind_r; [by apply adds_deadline_reached|intros late]. destruct late.
  { apply stable_adds_at_most_one. adds_facts cfg env no_popen. stab. }
  apply at_most_one_try_except.
  - apply at_most_one_bind_r; [apply check_recording_no_popen|intros done]. destruct done.
    + apply stable_adds_at_most_one. stab.
    + apply at_most_one_bind_l; [apply scan_for_stream_one_popen|intros _]. stab.
  - intros e k Hk. pose proof sleep_no_popen. stab.
Qed.

(** The upload: made in the first block of the [try], or in the branch taken
    at the deadline. *)
Lemma upload_one_run : stable (at_most_one is_run) (upload_downloads_to_drive cfg env).
Proof.
  intros w. destruct (upload_emits_run cfg env w) as (evs & H & F).
  exists evs. split; [done|]. rewrite F. simpl. lia.
Qed.

Lemma check_recording_one_run : stable (at_most_one is_run) (check_recording cfg env).
Proof.
  unfold check_recording.
  apply at_most_one_bind_r; [stab|intros w0]. destruct (current_proc w0) as [p|].
  2: { apply stable_adds_at_most_one. stab. }
  apply at_most_one_bind_r; [by apply adds_poll|intros [c|]].
  - apply at_most_one_bind_r; [stab|intros _].
    apply at_most_one_bind_l.
    + destruct (which cfg); [apply stable_adds_at_most_one; stab|apply upload_one_run].
    + intros _. adds_facts cfg env no_run. stab.
  - apply stable_adds_at_most_one. adds_facts cfg env no_run. unfold datetime_now. stab.
Qed.

Lemma watch_iteration_one_run fuel :
  stable (at_most_one is_run) (watch_iteration cfg env fuel).
Proof.
  unfold watch_iteration.
  apply at_most_one_bind_r; [by apply adds_deadline_reached|intros late]. destruct late.
  { apply at_most_one_bind_r; [stab|intros _].
    apply at_most_one_bind_r; [stab|intros w0].
    apply at_most_one_bind_r.
    { adds_facts cfg env no_run. stab. }
    intros _. apply at_most_one_bind_l; [apply upload_one_run|intros _; stab]. }
  apply at_most_one_try_except.
  - apply at_most_one_bind_l; [apply check_recording_one_run|intros done].
    pose proof (scan_for_stream_no_run cfg env fuel). stab.
  - intros e k Hk. adds_facts cfg env no_run. stab.
Qed.
End One_each.

(** X5. One pass through the loop starts at most one recorder and makes at
    most one upload, whatever the environment answers. *)
Theorem iteration_starts_one_recorder_one_upload cfg env fuel w :
  let evs := new_events w (watch_iteration cfg env fuel w).2 in
  (length (List.filter is_popen evs) <= 1)%nat /\
  (length (List.filter is_run evs) <= 1)%nat.
Proof.
  cbv zeta. split.
  - destruct (watch_iteration_one_popen cfg env fuel w) as (evs & H & L).
    by rewrite (new_events_app _ _ _ H).
  - destruct (watch_iteration_one_run cfg env fuel w) as (evs & H & L).
    by rewrite (new_events_app _ _ _ H).
Qed.

(** ** The deadline of [yt_live_watcher.py] *)




(** ** While the recorder runs *)





(** ** Leaving the inner loop *)

Lemma poll_sets_returncode env p w c w' :
  (p < length (procs w))%nat ->
  poll env p w = (Ret (Some c), w') -> mjoin (procs w' !! p) = Some c.
Proof.
  intros Hp. unfold poll, returncode, set_returncode. run.
  destruct (mjoin (procs w !! p)) as [c0|] eqn:Hrc.
  - intros ?; simplify_eq. exact Hrc.
  - run. destruct (child_exit env (asked w)); intros ?; simplify_eq.
    run. by rewrite list_lookup_insert_eq.
Qed.

Lemma poll_keeps_length env p :
  stable (keeps (fun w => length (procs w))) (poll env p).
Proof.
  unfold poll, returncode, set_returncode. stab.
  apply stable_modify; try tc_solve. intros w. unfold keeps. simpl. apply length_insert.
Qed.

Lemma readline_keeps_procs env p : stable (keeps procs) (stdout_readline env p).
Proof.
  intros w. unfold stdout_readline. run. by destruct (readline env (asked w)).
Qed.

(** One turn of the loop, for a child that [poll] found running. *)
Ltac relay_step env p IH :=
  rewrite run_bind;
  match goal with |- context [stdout_readline env p ?w0] =>
    let Hk := fresh "Hk" in
    pose proof (readline_keeps_procs env p w0) as Hk; unfold keeps in Hk;
    destruct (stdout_readline env p w0) as [[?|?|] ?]; try done;
    simpl in Hk; cbv beta iota;
    rewrite run_bind;
    (destruct (negb _); [cbv zeta; destruct (_ && _)|]);
    rewrite ?run_print, ?run_ret; cbv beta iota;
    rewrite run_bind; unfold sleep; simpl (100 <? 0); cbv beta iota;
    (apply IH; simpl; rewrite Hk; simpl; lia)
  end.

(** X8. The inner loop that relays the recorder's output is left in two ways
    only: [poll] has reported the exit code of the child, which is then
    recorded in the [Popen] object; or, in [yt_live_watcher.py], the deadline
    was found passed, and the last thing done was to log it. In
    [auto_yt_live.py] the loop therefore ends only with the recorder. *)
Theorem relay_ends_with_exit_or_deadline cfg env fuel p w w' :
  (p < length (procs w))%nat ->
  relay_progress cfg env fuel p w = (Ret tt, w') ->
  (exists c, mjoin (procs w' !! p) = Some c) \/
  (which cfg = YtLiveWatcher /\
   (exists e n, end_time cfg = Some e /\ e <= clock env n) /\
   last (trace w') = Some (Print LMaxRunDuringRecording)).
Proof.
  revert w. induction fuel as [|fuel IH]; intros w Hp; [done|].
  simpl. rewrite run_bind.
  pose proof (poll_keeps_length env p w) as Hlen. unfold keeps in Hlen.
  destruct (poll env p w) as [[[c|]|e|] w1] eqn:Hpoll; simpl in Hlen; try done.
  - rewrite run_ret. intros ?; simplify_eq. left. exists c.
    by apply (poll_sets_returncode env p w).
  - rewrite run_bind, run_deadline_reached.
    destruct (which cfg) eqn:Hw, (end_time cfg) as [e|] eqn:He; cbv beta iota.
    3: destruct (e <=? clock env (asked w1)) eqn:Hlate.
    3: { rewrite run_print. intros ?; simplify_eq. right. split; [done|].
         split; [exists e, (asked w1); split; [done|]; by apply Z.leb_le|].
         simpl. by rewrite last_snoc. }
    all: relay_step env p IH.
Qed.

Lemma relay_ends_with_exit_or_deadline_witness :
  let w := (start_record auto_live live_other "https://www.youtube.com/watch?v=xyz98765432"
              initial).2 in
  let w' := (relay_progress auto_live live_other 20 0 w).2 in
  (exists c, mjoin (procs w' !! 0%nat) = Some c) \/
  (which auto_live = YtLiveWatcher /\
   (exists e n, end_time auto_live = Some e /\ e <= clock live_other n) /\
   last (trace w') = Some (Print LMaxRunDuringRecording)).
Proof.
  apply (relay_ends_with_exit_or_deadline auto_live live_other 20 0
           (start_record auto_live live_other "https://www.youtube.com/watch?v=xyz98765432"
              initial).2);
    [vm_compute; lia|vm_compute; reflexivity].
Defined.

(** ** The fallback of the status message *)

Lemma deep_scan_known env url w final w' :
  get_video_info env url true w = (Ret final, w') ->
  py_eq (dict_get final "status") (PStr "live") = false ->
  forall title errmsg,
    known_status (Print (msg_map (dict_get final "status") title errmsg)).
Proof.
  run_prog. unfold dict_get.
  destruct (extract_info env (asked w)) as [[info|]|e|e]; cbn [info_present].
  - destruct (bool_decide (info = ∅)).
    { intros ?; simplify_eq. by rewrite lookup_singleton_eq. }
    destruct (truthy (default PNone (info !! "is_live"))).
    { intros ?; simplify_eq. by rewrite lookup_insert_eq. }
    destruct (_ || _).
    { intros ?; simplify_eq. by rewrite lookup_insert_eq. }
    cbn [negb andb]. intros ?; simplify_eq. by rewrite lookup_insert_eq.
  - intros ?; simplify_eq. by rewrite lookup_singleton_eq.
  - destruct e as [msg|msg out err|msg].
    + destruct (contains "live event will begin" msg);
        intros ?; simplify_eq; by rewrite lookup_insert_eq.
    + intros ?; simplify_eq. by rewrite lookup_insert_eq.
    + intros ?; simplify_eq. by rewrite lookup_insert_eq.
  - destruct e as [msg|msg out err|msg].
    + destruct (contains "live event will begin" msg);
        intros ?; simplify_eq; by rewrite lookup_insert_eq.
    + intros ?; simplify_eq. by rewrite lookup_insert_eq.
    + intros ?; simplify_eq. by rewrite lookup_insert_eq.
Qed.

Section Known.
Context (cfg : Config) (env : Env).

Lemma known_get_video_info url deep : stable (adds known_status) (get_video_info env url deep).
Proof. unfold get_video_info, YoutubeDL, ydl_extract_info. stab. Qed.

Lemma known_stop : stable (adds known_status) (stop_current_recording env).
Proof.
  unfold stop_current_recording, terminate, kill, wait, Popen_send_signal,
    poll, returncode, set_returncode.
  stab.
Qed.

Lemma known_upload : stable (adds known_status) (upload_downloads_to_drive cfg env).
Proof. unfold upload_downloads_to_drive, subprocess_run. stab. Qed.

Lemma known_log_throttled key l :
  known_status (Print l) -> stable (adds known_status) (log_throttled cfg env key l).
Proof. intros. unfold log_throttled, should_log, mark_logged, datetime_now. stab. Qed.

Lemma known_relay_progress fuel p : stable (adds known_status) (relay_progress cfg env fuel p).
Proof.
  induction fuel as [|fuel IH]; simpl; [stab|].
  unfold poll, returncode, set_returncode, deadline_reached, datetime_now,
    stdout_readline, sleep.
  stab.
Qed.

Lemma known_start_new_recording fuel url title cand :
  stable (adds known_status) (start_new_recording cfg env fuel url title cand).
Proof.
  pose proof known_stop. pose proof (known_relay_progress fuel).
  unfold start_new_recording, start_record, subprocess_Popen, mark_logged, datetime_now.
  stab.
Qed.

Lemma known_check_recording : stable (adds known_status) (check_recording cfg env).
Proof.
  pose proof known_stop. pose proof known_upload.
  unfold check_recording, poll, returncode, set_returncode, datetime_now, sleep. stab.
Qed.

Lemma known_scan_for_stream fuel : stable (adds known_status) (scan_for_stream cfg env fuel).
Proof.
  intros w. unfold scan_for_stream. rewrite run_bind.
  pose proof (known_get_video_info (CHANNEL_URL cfg) false w) as A1.
  destruct (get_video_info env (CHANNEL_URL cfg) false w) as [[channel_info|e|] w1];
    simpl in A1; try done.
  cbv beta iota zeta. etrans; [exact A1|]. clear A1.
  destruct (negb _).
  { assert (Hm : stable (adds known_status)
      (log_throttled cfg env "no_video" LNoVideoFound;; sleep (CHECK_INTERVAL cfg * 1000))).
    { pose proof (known_log_throttled "no_video" LNoVideoFound eq_refl).
      unfold sleep. stab. }
    apply Hm. }
  rewrite run_bind.
  match goal with |- context [get_video_info env ?u true w1] =>
    pose proof (known_get_video_info u true w1) as A2;
    pose proof (deep_scan_known env u w1) as Hknown;
    destruct (get_video_info env u true w1) as [[final|e|] w2]; simpl in A2; try done
  end.
  specialize (Hknown final w2 eq_refl). cbv beta iota. etrans; [exact A2|]. clear A2.
  match goal with |- adds _ w2 (?m w2).2 => assert (Hm : stable (adds known_status) m) end.
  { destruct (py_eq (dict_get final "status") (PStr "live")).
    - pose proof (known_start_new_recording fuel). unfold sleep. stab.
    - pose proof (fun key t e => known_log_throttled key _ (Hknown eq_refl t e)).
      unfold sleep. stab. }
  apply Hm.
Qed.

Lemma known_watch_iteration fuel : stable (adds known_status) (watch_iteration cfg env fuel).
Proof.
  pose proof known_stop. pose proof known_upload. pose proof known_check_recording.
  pose proof (known_scan_for_stream fuel).
  unfold watch_iteration, deadline_reached, datetime_now, sleep. stab.
Qed.
End Known.

(** X9. The fallback of the status message is dead: no run of either script
    prints the [Unknown status] line. A deep scan answers [live],
    [upcoming], [not_live] or [error] only, the first is handled before the
    message is chosen, and the table has an entry for each of the others. *)
Theorem unknown_status_never_logged cfg env ticks fuel w :
  Forall known_status (new_events w (watch_loop cfg env ticks fuel w).2).
Proof.
  apply adds_new_events.
  assert (H : stable (adds known_status) (watch_loop cfg env ticks fuel)).
  { pose proof (stable_iterate (adds known_status) cfg env ticks fuel
                  (known_watch_iteration cfg env)).
    unfold watch_loop. stab. }
  apply H.
Qed.

(** ** Failed probes *)








(** ** The interrupt handler *)

(** X12. [handle_sigint] always ends the program with exit status 0. No
    failure of [terminate], [wait] or rclone keeps it from reaching
    [sys.exit(0)]: the recorder is stopped and forgotten first, then
    [yt_live_watcher.py] makes its one upload and [auto_yt_live.py] none.
    The handler probes nothing and starts nothing. *)
Theorem sigint_always_exits cfg env w :
  exists w',
    handle_sigint cfg env w = (Raise (SystemExit 0), w') /\
    current_proc w' = None /\
    List.filter is_run (new_events w w') =
      match which cfg with
      | YtLiveWatcher => [Run (upload_cmd cfg) 1800]
      | AutoYtLive => []
      end /\
    List.filter is_extract (new_events w w') = [] /\
    List.filter is_popen (new_events w w') = [].
Proof.
  unfold handle_sigint. rewrite run_bind, run_print. cbv beta iota.
  set (w0 := record _ w).
  assert (H0 : forall P : event -> Prop, (forall l, P (Print l)) -> adds P w w0).
  { intros P HP. by apply adds_record. }
  clearbody w0. rewrite run_bind.
  pose proof (stop_no_handle env w0) as Hc.
  assert (H1 : forall P : event -> Prop,
            (forall l, P (Print l)) -> (forall p, P (Terminate p)) ->
            (forall p t, P (Wait p t)) -> (forall p, P (Kill p)) ->
            adds P w0 (stop_current_recording env w0).2).
  { intros P ? ? ? ?. by apply stop_adds. }
  destruct (returns_run _ w0 (returns_stop_current_recording env)) as [[] ->].
  set (w1 := (stop_current_recording env w0).2) in *. clearbody w1.
  cbv beta iota. rewrite run_bind.
  assert (H01 : adds no_run w w1 /\ adds no_extract w w1 /\ adds no_popen w w1).
  { repeat split; (etrans; [by apply H0|by apply H1]). }
  destruct H01 as (Hr & Hx & Hp).
  destruct (which cfg).
  - rewrite run_ret. cbv beta iota. exists w1. split; [done|]. split; [done|].
    repeat split; apply filter_none; by apply adds_new_events.
  - pose proof (upload_emits_run cfg env w1) as Hup.
    pose proof (keeps_upload cfg env current_proc w1) as Hkeep. unfold keeps in Hkeep.
    assert (Hx2 : adds no_extract w1 (upload_downloads_to_drive cfg env w1).2)
      by (by apply adds_upload).
    assert (Hp2 : adds no_popen w1 (upload_downloads_to_drive cfg env w1).2)
      by (by apply adds_upload).
    destruct (returns_run _ w1 (returns_upload cfg env)) as [[] ->].
    set (w2 := (upload_downloads_to_drive cfg env w1).2) in *. clearbody w2.
    cbv beta iota. exists w2. split; [done|]. split; [congruence|]. split; [|split].
    + apply emits_new_events. apply (emits_trans _ [] [_] w w1 w2); [|done].
      by apply adds_emits.
    + apply filter_none, adds_new_events. by etrans.
    + apply filter_none, adds_new_events. by etrans.
Qed.

(** ** The end of a recording *)

Lemma stop_exited env w p c :
  current_proc w = Some p -> mjoin (procs w !! p) = Some c ->
  stop_current_recording env w =
    (Ret tt,
     set_current_vid_id PNone (set_current_proc None
       (record (Print (LRecordingStopped (current_vid_id w)))
          (record (Wait p 5) (record (Terminate p)
             (record (Print (LTerminating (current_vid_id w))) w)))))).
Proof.
  intros Hp Hrc.
  unfold stop_current_recording, try_finally, try_except, terminate, wait, kill,
    Popen_send_signal, poll, returncode, set_returncode.
  run. rewrite Hp. run. rewrite Hrc. run. rewrite Hrc. run. rewrite Hrc. run. done.
Qed.

Lemma upload_keeps_procs cfg env : stable (keeps procs) (upload_downloads_to_drive cfg env).
Proof.
  intros w. unfold upload_downloads_to_drive, try_except, subprocess_run. run.
  destruct (run_rclone env (asked w)) as [rc out err|out err|e]; run.
  - by destruct (rc =? 0); [destruct (negb _)|].
  - done.
  - by destruct e.
Qed.

Lemma upload_emits_action cfg env w :
  emits is_action [Run (upload_cmd cfg) 1800] w (upload_downloads_to_drive cfg env w).2.
Proof.
  unfold upload_downloads_to_drive, try_except, subprocess_run. run.
  destruct (run_rclone env (asked w)) as [rc out err|out err|e]; run.
  - destruct (rc =? 0); [destruct (negb _)|]; run;
      (eexists; split; [simpl; rewrite <- ?app_assoc; reflexivity|done]).
  - eexists; split; [simpl; rewrite <- ?app_assoc; reflexivity|done].
  - destruct e; run; (eexists; split; [simpl; rewrite <- ?app_assoc; reflexivity|done]).
Qed.

(** X13. The iteration that sees the recorder's exit. The exit code is
    logged; [yt_live_watcher.py] then uploads, before anything else; the
    session is closed with the usual [terminate] and [wait], and nothing
    more is done to the child; the logged state becomes [stopped]; and the
    block answers that the iteration goes on to scan the channel at once,
    without sleeping first. *)
Theorem recorder_exit_closes_session cfg env w p c w1 :
  current_proc w = Some p -> (p < length (procs w))%nat ->
  poll env p w = (Ret (Some c), w1) ->
  exists w',
    check_recording cfg env w = (Ret false, w') /\
    session w' = (None, PNone) /\ last_logged_state w' = "stopped" /\
    List.filter is_action (new_events w w') =
      (match which cfg with
       | YtLiveWatcher => [Run (upload_cmd cfg) 1800]
       | AutoYtLive => []
       end ++ [Terminate p; Wait p 5])%list /\
    List.filter is_sleep (new_events w w') = [].
Proof.
  intros Hp Hlt Hpoll.
  pose proof (poll_sets_returncode env p w c w1 Hlt Hpoll) as Hrc.
  pose proof (poll_keeps_trace env p w) as Kt.
  pose proof (keeps_poll env session p w) as Ks.
  rewrite Hpoll in Kt, Ks. unfold keeps in Kt, Ks. simpl in Kt, Ks.
  assert (Hp1 : current_proc w1 = Some p) by (injection Ks as -> _; done).
  unfold check_recording. rewrite run_bind, run_get. cbv beta iota. rewrite Hp.
  rewrite run_bind, Hpoll. cbv beta iota. rewrite run_bind, run_print. cbv beta iota.
  set (w2 := record _ w1).
  assert (H02 : emits is_action [] w w2 /\ emits is_sleep [] w w2).
  { split; (eexists [_]; split; [simpl; by rewrite Kt|done]). }
  destruct H02 as [Ha02 Hs02].
  assert (Hp2 : current_proc w2 = Some p) by done.
  assert (Hrc2 : mjoin (procs w2 !! p) = Some c) by done.
  clearbody w2. rewrite run_bind.
  assert (Hup : exists w3,
    (match which cfg with
     | YtLiveWatcher => upload_downloads_to_drive cfg env
     | AutoYtLive => ret tt
     end) w2 = (Ret tt, w3) /\
    current_proc w3 = current_proc w2 /\ procs w3 = procs w2 /\
    emits is_action (match which cfg with
                     | YtLiveWatcher => [Run (upload_cmd cfg) 1800]
                     | AutoYtLive => []
                     end) w2 w3 /\
    emits is_sleep [] w2 w3).
  { destruct (which cfg).
    - exists w2. repeat split; apply emits_refl.
    - pose proof (upload_emits_action cfg env w2) as He.
      pose proof (keeps_upload cfg env current_proc w2) as Kc.
      pose proof (upload_keeps_procs cfg env w2) as Kp.
      assert (Hsl : adds (fun e => is_sleep e = false) w2
                      (upload_downloads_to_drive cfg env w2).2) by (by apply adds_upload).
      destruct (returns_run _ w2 (returns_upload cfg env)) as [[] Hr].
      eexists. split; [exact Hr|]. split; [exact Kc|]. split; [exact Kp|].
      split; [exact He|]. by apply adds_emits. }
  destruct Hup as (w3 & -> & Hc3 & Hp3 & Ha23 & Hs23). cbv beta iota.
  rewrite run_bind, (stop_exited env w3 p c) by congruence. cbv beta iota.
  rewrite run_bind, run_modify. cbv beta iota. rewrite run_ret.
  eexists. split; [reflexivity|]. split; [reflexivity|]. split; [reflexivity|].
  split; apply emits_new_events.
  - apply (emits_trans _ [] _ w w2 _ Ha02). eapply emits_trans; [exact Ha23|].
    eexists [_; _; _; _]. split; [simpl; by rewrite <- !app_assoc|done].
  - apply (emits_trans _ [] [] w w2 _ Hs02). apply (emits_trans _ [] [] w2 w3 _ Hs23).
    eexists [_; _; _; _]. split; [simpl; by rewrite <- !app_assoc|done].
Qed.

Lemma recorder_exit_closes_session_witness :
  let w := set_procs [Some 0] recording in
  exists w',
    check_recording watcher_5s stubborn_child w = (Ret false, w') /\
    session w' = (None, PNone) /\ last_logged_state w' = "stopped" /\
    List.filter is_action (new_events w w') =
      ([Run (upload_cmd watcher_5s) 1800] ++ [Terminate 0; Wait 0 5])%list /\
    List.filter is_sleep (new_events w w') = [].
Proof.
  apply (recorder_exit_closes_session watcher_5s stubborn_child
           (set_procs [Some 0] recording) 0%nat 0 (set_procs [Some 0] recording));
    [reflexivity|vm_compute; lia|reflexivity].
Defined.

(** ** Finding the id in a message *)

Lemma match_youtube_id_other_head c s :
  Ascii.eqb c "[" = false -> match_youtube_id (String c s) = None.
Proof.
  intros Hc. unfold match_youtube_id. cbn [drop_prefix].
  rewrite Ascii.eqb_sym in Hc. by rewrite Hc.
Qed.

Lemma re_search_youtube_id_unfold s :
  re_search_youtube_id s =
  match match_youtube_id s with
  | Some g => Some g
  | None => match s with
            | EmptyString => None
            | String _ r => re_search_youtube_id r
            end
  end.
Proof. by destruct s. Qed.

(** X14. What [re.search] finds in the message of yt-dlp. In a message that
    holds no bracket before the [[youtube]] tag, the match is at the tag,
    and the group is the eleven characters that follow it and its white
    space, whatever comes after them. *)
Theorem re_search_finds_tagged_id pre ws tok post :
  string_forall (fun c => negb (Ascii.eqb c "[")) pre = true ->
  string_forall is_space ws = true ->
  String.length tok = 11%nat -> string_forall is_id_char tok = true ->
  re_search_youtube_id (pre +:+ "[youtube]" +:+ ws +:+ tok +:+ post) = Some tok.
Proof.
  intros Hpre Hws Hlen Htok. induction pre as [|c pre IH].
  - rewrite append_nil.
    assert (Hm : match_youtube_id ("[youtube]" +:+ ws +:+ tok +:+ post) = Some tok).
    { apply match_youtube_id_spec. by exists ws, post. }
    rewrite re_search_youtube_id_unfold. by rewrite Hm.
  - simpl in Hpre. apply andb_prop in Hpre as [Hc Hpre].
    apply negb_true_iff in Hc. rewrite append_cons.
    rewrite re_search_youtube_id_unfold, (match_youtube_id_other_head _ _ Hc). auto.
Qed.

Lemma re_search_finds_tagged_id_witness :
  re_search_youtube_id starts_later = Some "abc12345678".
Proof.
  apply (re_search_finds_tagged_id "ERROR: " " " "abc12345678"
           ": This live event will begin in 5 minutes."); reflexivity.
Defined.

(** ** Two runs of the loop *)

Lemma watch_loop_never_kills_witness :
  Forall no_kill
    (trace (watch_iteration watcher_5s stubborn_child 5
              (record (Print (LMonitoring (CHANNEL_URL watcher_5s))) initial)).2).
Proof.
  apply (watch_loop_never_kills watcher_5s stubborn_child
           (record (Print (LMonitoring (CHANNEL_URL watcher_5s))) initial) 5).
  apply boundary_enter.
Defined.

Lemma upload_follows_seen_exit_witness :
  exists p c,
    current_proc (set_procs [Some 0] recording) = Some p /\
    (poll stubborn_child p (set_procs [Some 0] recording)).1 = Ret (Some c).
Proof.
  apply (upload_follows_seen_exit watcher_5s stubborn_child (set_procs [Some 0] recording)).
  vm_compute. discriminate.
Defined.

(** ** A loop without a deadline *)

Lemma iteration_break_inv cfg env fuel w :
  (watch_iteration cfg env fuel w).1 = Ret Break ->
  which cfg = YtLiveWatcher /\ exists e, end_time cfg = Some e /\ e <= clock env (asked w).
Proof.
  unfold watch_iteration. rewrite run_bind, run_deadline_reached.
  assert (Hnext : forall w1,
    (try_except
       (bind (check_recording cfg env)
          (fun done => if done then ret Next else scan_for_stream cfg env fuel;; ret Next))
       (except_Exception
          (fun e => print (LUnexpectedError (exc_str e));;
                    sleep (CHECK_INTERVAL cfg * 2 * 1000);; ret Next)) w1).1 <> Ret Break).
  { intros w1. unfold try_except.
    pose proof (try_body_answers_next cfg env fuel w1) as Hn.
    destruct (bind (check_recording cfg env) _ w1) as [[a|[e|c]|] w2]; simpl; try done.
    - rewrite (Hn a w2 eq_refl). done.
    - pose proof (answers_bind (fun b => b = Next)
        (print (LUnexpectedError (exc_str e)))
        (fun _ => sleep (CHECK_INTERVAL cfg * 2 * 1000);; ret Next)) as Hb.
      intros Hbrk. unshelve epose proof (Hb _ w2) as Hb'.
      { intros ? w3. apply (answers_bind (fun b => b = Next)). done. }
      by rewrite Hbrk in Hb'. }
  destruct (which cfg), (end_time cfg) as [e|]; cbv beta iota;
    try (intros H; by destruct (Hnext _ H)).
  destruct (e <=? clock env (asked w)) eqn:Hlate.
  - intros _. split; [done|]. exists e. split; [done|]. by apply Z.leb_le.
  - intros H; by destruct (Hnext _ H).
Qed.

(** X17. A loop without a deadline has no exit. [auto_yt_live.py], and
    [yt_live_watcher.py] when [MAX_RUN_SECONDS] is zero or negative, never
    return from [watch_loop]: whatever the environment answers and however
    long the loop is followed, it is still running, or it has been ended
    by an exception that its handler could not absorb. *)
Theorem loop_without_deadline_never_returns cfg env ticks fuel w :
  which cfg = AutoYtLive \/
  (exists start_time MAX_RUN_SECONDS,
     MAX_RUN_SECONDS <= 0 /\ end_time cfg = end_time_of start_time MAX_RUN_SECONDS) ->
  endless (watch_loop cfg env ticks fuel w).1.
Proof.
  intros Hno.
  assert (Hnb : forall w0, (watch_iteration cfg env fuel w0).1 <> Ret Break).
  { intros w0 Hb. destruct (iteration_break_inv cfg env fuel w0 Hb) as (Hw & e & He & _).
    destruct Hno as [Ha|(s & m & Hm & Hend)]; [congruence|].
    unfold end_time_of in Hend. destruct (0 <? m) eqn:E; [apply Z.ltb_lt in E; lia|].
    congruence. }
  unfold watch_loop. rewrite run_bind, run_print. cbv beta iota.
  set (w0 := record _ w). clearbody w0. revert w0.
  induction ticks as [|ticks IH]; intros w0; [done|].
  simpl. rewrite run_bind. specialize (Hnb w0).
  destruct (watch_iteration cfg env fuel w0) as [[[]| |] w1]; simpl in *;
    [apply IH|by destruct Hnb|done|done].
Qed.

Lemma loop_without_deadline_never_returns_witness :
  endless (watch_loop auto_live live_other 3 20 initial).1.
Proof.
  apply (loop_without_deadline_never_returns auto_live live_other 3 20 initial).
  left. reflexivity.
Defined.

(** * The transition to a new recording *)










(** * The heartbeat *)

(** ** No other part of the loop logs it *)

Lemma msg_map_no_heartbeat status title errmsg :
  no_heartbeat (Print (msg_map status title errmsg)).
Proof. unfold msg_map. by repeat case_match. Qed.

Section Quiet.
Context (cfg : Config) (env : Env).

Lemma quiet_get_video_info url deep :
  stable (adds no_heartbeat) (get_video_info env url deep).
Proof. unfold get_video_info, YoutubeDL, ydl_extract_info. stab. Qed.

Lemma quiet_stop : stable (adds no_heartbeat) (stop_current_recording env).
Proof.
  unfold stop_current_recording, terminate, kill, wait, Popen_send_signal,
    poll, returncode, set_returncode.
  stab.
Qed.

Lemma quiet_upload : stable (adds no_heartbeat) (upload_downloads_to_drive cfg env).
Proof. unfold upload_downloads_to_drive, subprocess_run. stab. Qed.

Lemma quiet_log_throttled key l :
  no_heartbeat (Print l) -> stable (adds no_heartbeat) (log_throttled cfg env key l).
Proof. intros. unfold log_throttled, should_log, mark_logged, datetime_now. stab. Qed.

Lemma quiet_sleep ms : stable (adds no_heartbeat) (sleep ms).
Proof. unfold sleep. stab. Qed.

Lemma quiet_relay_progress fuel p :
  stable (adds no_heartbeat) (relay_progress cfg env fuel p).
Proof.
  induction fuel as [|fuel IH]; simpl; [stab|].
  unfold poll, returncode, set_returncode, deadline_reached, datetime_now,
    stdout_readline, sleep.
  stab.
Qed.

Lemma quiet_start_new_recording fuel url title cand :
  stable (adds no_heartbeat) (start_new_recording cfg env fuel url title cand).
Proof.
  pose proof quiet_stop. pose proof (quiet_relay_progress fuel).
  unfold start_new_recording, start_record, subprocess_Popen, mark_logged, datetime_now.
  stab.
Qed.

Lemma quiet_scan_for_stream fuel :
  stable (adds no_heartbeat) (scan_for_stream cfg env fuel).
Proof.
  pose proof quiet_get_video_info. pose proof (quiet_start_new_recording fuel).
  pose proof quiet_sleep.
  pose proof (quiet_log_throttled "no_video" LNoVideoFound eq_refl).
  pose proof (fun key s t e => quiet_log_throttled key _ (msg_map_no_heartbeat s t e)).
  unfold scan_for_stream. stab.
Qed.
End Quiet.

(** ** Where an undisturbed iteration leaves the session *)

Lemma still_settled cfg env w w' : still w w' -> settled cfg env w -> settled cfg env w'.
Proof.
  intros (Hc & Hp & Ha) [Hs|(Hw & e & n & He & Hn & Hle)].
  - left. intros p Hp'. rewrite Hp. apply Hs. by rewrite <- Hc.
  - right. split; [done|]. exists e, n. rewrite Ha. done.
Qed.

Lemma idle_settled cfg env w : current_proc w = None -> settled cfg env w.
Proof. intros H. left. intros p Hp. congruence. Qed.

Lemma still_sleep ms w : still w (sleep ms w).2.
Proof. unfold sleep. by destruct (sleep_refusal ms). Qed.

Lemma returns_poll env p : returns (poll env p).
Proof. unfold poll, returncode, set_returncode. rets. Qed.

(** The inner loop, when reading the output never raises: it returns only
    after the exit was seen or the deadline found passed, and it does not
    raise. *)
Lemma relay_progress_settles cfg env fuel p w :
  readable env -> (p < length (procs w))%nat -> current_proc w = Some p ->
  match relay_progress cfg env fuel p w with
  | (Ret _, w') =>
      current_proc w' = Some p /\
      ((exists c, mjoin (procs w' !! p) = Some c) \/ overdue cfg env w')
  | (Raise _, _) => False
  | (Diverge, _) => True
  end.
Proof.
  intros Hread. revert w. induction fuel as [|fuel IH]; intros w Hp Hcur; [done|].
  simpl. rewrite run_bind.
  pose proof (poll_keeps_length env p w) as Hlen. unfold keeps in Hlen.
  pose proof (keeps_poll env current_proc p w) as Hkc. unfold keeps in Hkc.
  destruct (returns_poll env p w) as [rc Hret].
  destruct (poll env p w) as [[[c|]|e|] w1] eqn:Hpoll; simpl in Hlen, Hkc, Hret;
    try done.
  - rewrite run_ret. split; [congruence|]. left. exists c.
    by apply (poll_sets_returncode env p w).
  - rewrite run_bind, run_deadline_reached.
    assert (Hstep : forall w2,
      current_proc w2 = Some p -> (p < length (procs w2))%nat ->
      match
        (output ← stdout_readline env p;
         (if negb (String.eqb output EmptyString) then
            let output := strip output in
            if contains "[download]" output && negb (contains "Destination:" output)
            then print (LProgress output)
            else ret tt
          else ret tt);;
         sleep 100;;
         relay_progress cfg env fuel p) w2
      with
      | (Ret _, w') =>
          current_proc w' = Some p /\
          ((exists c, mjoin (procs w' !! p) = Some c) \/ overdue cfg env w')
      | (Raise _, _) => False
      | (Diverge, _) => True
      end).
    { intros w2 Hc2 Hp2. rewrite run_bind. unfold stdout_readline. run.
      destruct (Hread (asked w2)) as [s ->]. run.
      destruct (negb (String.eqb s EmptyString));
        [cbv zeta; destruct (_ && _)|]; run;
        rewrite sleep_accepted by lia; apply IH; done. }
    destruct (which cfg) eqn:Hw, (end_time cfg) as [e|] eqn:He; cbv beta iota.
    3: destruct (e <=? clock env (asked w1)) eqn:Hlate.
    3: { rewrite run_print. split; [simpl; congruence|]. right. split; [done|].
         exists e, (asked w1). split; [done|]. split; [simpl; lia|]. by apply Z.leb_le. }
    all: apply Hstep; simpl; [congruence|lia].
Qed.

(** The block at the head of the [try], for a recorder whose exit has been
    seen: the exit branch is taken, and the heartbeat test is not reached. *)
Lemma check_recording_seen_exit cfg env w :
  seen_exit w ->
  exists w',
    check_recording cfg env w = (Ret false, w') /\
    current_proc w' = None /\ adds no_heartbeat w w'.
Proof.
  intros Hseen. unfold check_recording. rewrite run_bind, run_get. cbv beta iota.
  destruct (current_proc w) as [p|] eqn:Hp.
  - destruct (Hseen p Hp) as [c Hrc].
    rewrite run_bind, (poll_reaped env p c w Hrc). cbv beta iota.
    set (k := bind (print _) _).
    assert (Hk : stable (adds no_heartbeat) k).
    { pose proof (quiet_stop env). pose proof (quiet_upload cfg env). unfold k. stab. }
    assert (Hr : returns k).
    { pose proof (returns_stop_current_recording env).
      pose proof (returns_upload cfg env). unfold k. rets. }
    assert (Hb : match (k w).1 with Ret b => b = false | _ => True end).
    { unfold k. do 4 (apply answers_bind; intros ? ?). done. }
    assert (Hc : current_proc (k w).2 = None).
    { unfold k. rewrite run_bind, run_print. cbv beta iota. rewrite run_bind.
      set (w0 := record _ w).
      set (u := match which cfg with
                | YtLiveWatcher => upload_downloads_to_drive cfg env
                | AutoYtLive => ret tt
                end).
      assert (Hu : returns u)
        by (pose proof (returns_upload cfg env); unfold u; rets).
      destruct (returns_run u w0 Hu) as [[] ->]. cbv beta iota. rewrite run_bind.
      pose proof (stop_no_handle env (u w0).2) as Hnone.
      destruct (returns_run _ (u w0).2 (returns_stop_current_recording env)) as [[] ->].
      cbv beta iota. rewrite run_bind, run_modify. cbv beta iota. rewrite run_ret.
      exact Hnone. }
    specialize (Hk w). destruct (returns_run k w Hr) as [b Hrun].
    rewrite Hrun in Hb. simpl in Hb. subst b.
    exists (k w).2. done.
  - rewrite run_ret. exists w. split; [done|]. split; [done|]. reflexivity.
Qed.

Lemma start_record_fresh cfg env url w started w' :
  start_record cfg env url w = (Ret started, w') ->
  current_proc w' = current_proc w /\
  match started with
  | Some p => (p < length (procs w'))%nat
  | None => True
  end.
Proof.
  intros H. split.
  - pose proof (keeps_start_record cfg env current_proc url w) as K.
    unfold keeps in K. by rewrite H in K.
  - destruct started as [p|]; [|done]. by apply (start_record_in_table cfg env url w).
Qed.

(** The branch that starts a recording, entered without a session. *)
Lemma start_new_recording_settles cfg env fuel url title cand w :
  readable env -> current_proc w = None ->
  exits (settled cfg env) (start_new_recording cfg env fuel url title cand w).
Proof.
  intros Hread Hnone. unfold start_new_recording.
  rewrite run_bind, run_print. cbv beta iota.
  rewrite run_bind, stop_idle by done. cbv beta iota. rewrite run_bind.
  set (w0 := record _ w).
  destruct (returns_run _ w0 (returns_start_record cfg env url)) as [started Hst].
  destruct (start_record_fresh cfg env url w0 started _ Hst) as [Hc Hp].
  rewrite Hst. set (w1 := (start_record cfg env url w0).2) in *. clearbody w1.
  cbv beta iota. rewrite run_bind, run_modify. cbv beta iota.
  destruct started as [p|].
  - rewrite run_bind, run_print. cbv beta iota.
    rewrite run_bind, run_modify. cbv beta iota. rewrite run_bind.
    unfold mark_logged, datetime_now. run.
    match goal with |- context [relay_progress cfg env fuel p ?w2] =>
      pose proof (relay_progress_settles cfg env fuel p w2 Hread Hp eq_refl) as Hrelay;
      destruct (relay_progress cfg env fuel p w2) as [[[]|e|] w3]
    end; [|done|done].
    destruct Hrelay as [Hc3 Hs3]. unfold exits. simpl.
    destruct Hs3 as [Hseen|Hover].
    + left. intros q Hq. simpl in Hq. rewrite Hc3 in Hq. by simplify_eq.
    + right. destruct Hover as (Hw & e & n & He & Hn & Hle).
      split; [done|]. by exists e, n.
  - rewrite run_bind, run_print. cbv beta iota. rewrite run_modify.
    unfold exits. simpl. by apply idle_settled.
Qed.

(** The scan, entered without a session as it always is. *)
Lemma scan_for_stream_settles cfg env fuel w :
  readable env -> current_proc w = None ->
  exits (settled cfg env) (scan_for_stream cfg env fuel w).
Proof.
  intros Hread Hnone.
  assert (Hidle : forall {A} (m : M A) w0,
            stable (keeps current_proc) m -> current_proc w0 = None ->
            exits (settled cfg env) (m w0)).
  { intros A m w0 Hm H0. specialize (Hm w0). unfold keeps in Hm. unfold exits.
    destruct (m w0).1; try done; apply idle_settled; congruence. }
  unfold scan_for_stream. rewrite run_bind.
  pose proof (keeps_get_video_info env current_proc (CHANNEL_URL cfg) false w) as K1.
  destruct (returns_run _ w (returns_get_video_info env (CHANNEL_URL cfg) false))
    as [channel_info H1].
  rewrite H1 in K1 |- *. unfold keeps in K1. simpl in K1.
  set (w1 := (get_video_info env (CHANNEL_URL cfg) false w).2) in *. clearbody w1.
  cbv beta iota zeta.
  destruct (negb _).
  { apply Hidle; [|congruence].
    pose proof (log_throttled_keeps_session cfg env).
    pose proof (keeps_sleep current_proc).
    assert (forall key l, stable (keeps current_proc) (log_throttled cfg env key l)).
    { intros key l w0. specialize (H key l w0). unfold keeps in *. by injection H. }
    stab. }
  rewrite run_bind.
  match goal with |- context [get_video_info env ?u true w1] =>
    pose proof (keeps_get_video_info env current_proc u true w1) as K2;
    destruct (returns_run _ w1 (returns_get_video_info env u true)) as [final H2];
    rewrite H2 in K2 |- *; unfold keeps in K2; simpl in K2;
    set (w2 := (get_video_info env u true w1).2) in *; clearbody w2
  end.
  cbv beta iota.
  assert (Hlog : forall key l, stable (keeps current_proc) (log_throttled cfg env key l)).
  { intros key l w0. pose proof (log_throttled_keeps_session cfg env key l w0) as H.
    unfold keeps in *. by injection H. }
  destruct (py_eq (dict_get final "status") (PStr "live")).
  2: { apply Hidle; [|congruence]. pose proof (keeps_sleep current_proc). stab. }
  rewrite run_bind, (run_bind get), run_get. cbv beta iota.
  destruct (negb _).
  2: { rewrite run_ret. cbv beta iota. apply (Hidle _ (sleep _)); [|congruence].
       apply keeps_sleep. tc_solve. }
  match goal with |- context [start_new_recording cfg env fuel ?u ?t ?c w2] =>
    pose proof (start_new_recording_settles cfg env fuel u t c w2 Hread
                  ltac:(congruence)) as Hs;
    destruct (start_new_recording cfg env fuel u t c w2) as [[[]|e|] w3]
  end; try done.
  unfold exits in Hs |- *. simpl in Hs.
  pose proof (still_sleep (CHECK_INTERVAL cfg * 1000) w3) as Hstill.
  destruct (sleep (CHECK_INTERVAL cfg * 1000) w3) as [[[]|e|] w4]; simpl in *;
    try done; by apply (still_settled cfg env w3).
Qed.

(** One iteration from a settled state: it logs no heartbeat, and leaves a
    settled state when it completes. *)
Lemma watch_iteration_never_beats cfg env fuel w :
  readable env -> deadline_stays_passed cfg env -> settled cfg env w ->
  adds no_heartbeat w (watch_iteration cfg env fuel w).2 /\
  ((watch_iteration cfg env fuel w).1 = Ret Next ->
   settled cfg env (watch_iteration cfg env fuel w).2).
Proof.
  intros Hread Hstay Hset.
  destruct (deadline_reached cfg env w) as [late w1] eqn:Hd.
  pose proof Hd as Hd'. rewrite run_deadline_reached in Hd'.
  assert (A01 : adds no_heartbeat w w1).
  { apply adds_same_trace. destruct (which cfg), (end_time cfg); by simplify_eq. }
  assert (Hlate : late = Ret true \/ (late = Ret false /\ seen_exit w1)).
  { destruct Hset as [Hseen|(Hw & e & n & He & Hn & Hle)].
    - destruct (which cfg), (end_time cfg) as [e|]; simplify_eq;
        try (right; split; done).
      destruct (e <=? clock env (asked w)); [by left|by right].
    - left. rewrite Hw, He in Hd'. simplify_eq. f_equal. apply Z.leb_le.
      by apply (Hstay e n (asked w)). }
  unfold watch_iteration. rewrite run_bind, Hd.
  destruct Hlate as [->|[-> Hseen]]; cbv beta iota.
  - set (k := bind (print LReachedMaxRun) _).
    assert (Hk : stable (adds no_heartbeat) k).
    { pose proof (quiet_stop env). pose proof (quiet_upload cfg env). unfold k. stab. }
    assert (Hb : match (k w1).1 with Ret b => b = Break | _ => True end).
    { unfold k. do 4 (apply answers_bind; intros ? ?). done. }
    split; [etrans; [exact A01|apply Hk]|].
    intros Hn. by rewrite Hn in Hb.
  - unfold try_except. rewrite run_bind.
    destruct (check_recording_seen_exit cfg env w1 Hseen) as (w2 & -> & Hnone & A12).
    cbv beta iota. rewrite run_bind.
    pose proof (quiet_scan_for_stream cfg env fuel w2) as A23.
    pose proof (scan_for_stream_settles cfg env fuel w2 Hread Hnone) as S3.
    unfold exits in S3.
    destruct (scan_for_stream cfg env fuel w2) as [[[]|[e|c]|] w3]; simpl in A23, S3.
    + rewrite run_ret. simpl. split; [|done]. etrans; [exact A01|]. by etrans.
    + cbn [except_Exception]. rewrite run_bind, run_print. cbv beta iota.
      rewrite run_bind.
      set (w4 := record _ w3).
      assert (A34 : adds no_heartbeat w3 w4) by (by apply adds_record).
      assert (S4 : settled cfg env w4) by (by apply (still_settled cfg env w3)).
      pose proof (still_sleep (CHECK_INTERVAL cfg * 2 * 1000) w4) as Hstill.
      pose proof (quiet_sleep (CHECK_INTERVAL cfg * 2 * 1000) w4) as A45.
      clearbody w4.
      destruct (sleep (CHECK_INTERVAL cfg * 2 * 1000) w4) as [[[]|e'|] w5];
        simpl in *; (split; [etrans; [exact A01|]; etrans; [exact A12|];
                             etrans; [exact A23|]; by etrans|]); try done.
      intros _. by apply (still_settled cfg env w4).
    + simpl. split; [|done]. etrans; [exact A01|]. by etrans.
    + simpl. split; [|done]. etrans; [exact A01|]. by etrans.
Qed.

Lemma iterate_never_beats cfg env ticks fuel w :
  readable env -> deadline_stays_passed cfg env -> settled cfg env w ->
  adds no_heartbeat w (iterate cfg env ticks fuel w).2.
Proof.
  intros Hread Hstay. revert w. induction ticks as [|ticks IH]; intros w Hset.
  - reflexivity.
  - simpl. rewrite run_bind.
    destruct (watch_iteration_never_beats cfg env fuel w Hread Hstay Hset) as [A1 S1].
    destruct (watch_iteration cfg env fuel w) as [[[]| |] w1]; simpl in *; try done.
    etrans; [exact A1|]. apply IH. by apply S1.
Qed.

(** C7. A recorder that nothing disturbs gets no heartbeat. When reading the
    recorder's output never raises, and the deadline, if there is one, stays
    passed once it is, no run of [watch_loop] ever logs the heartbeat line,
    however long the recording lasts: the iteration that starts the
    recorder stays in the inner loop until the recorder has exited or the
    deadline has passed, so the iteration after it takes the exit branch or
    leaves the loop, and the heartbeat test is never reached. *)
Theorem undisturbed_recording_logs_no_heartbeat cfg env ticks fuel :
  readable env -> deadline_stays_passed cfg env ->
  Forall no_heartbeat (trace (watch_loop cfg env ticks fuel initial).2).
Proof.
  intros Hread Hstay. unfold watch_loop. rewrite run_bind, run_print. cbv beta iota.
  set (w0 := record _ initial).
  assert (S0 : settled cfg env w0) by (by apply idle_settled).
  pose proof (iterate_never_beats cfg env ticks fuel w0 Hread Hstay S0)
    as (evs & Htr & Hevs).
  rewrite Htr. apply Forall_app. split; [|done]. by repeat constructor.
Qed.

Lemma undisturbed_recording_logs_no_heartbeat_witness :
  let w' := (watch_loop auto_live long_stream 1 300 initial).2 in
  Forall no_heartbeat (trace w') /\
  session w' = (Some 0%nat, PStr "abc12345678") /\
  count_line (LProgress "[download]   1.0% of ~10.00MiB") (trace w') = 208%nat /\
  procs w' = [Some 0] /\
  elapsed_exceeds (clock long_stream (asked w')) (last_logged_time w')
                  (HEARTBEAT_INTERVAL auto_live) = true.
Proof.
  split.
  - apply (undisturbed_recording_logs_no_heartbeat auto_live long_stream 1 300).
    + intros n. eexists. reflexivity.
    + intros e n m Hw. discriminate.
  - vm_compute. repeat split; reflexivity.
Defined.

(** ** When the branch is reached *)



